(** * workfront-api: the request routine [Api.prototype.request]

    A shallow embedding of the request-construction and dispatch routine of the
    Workfront API client, and the properties of it that the specification
    states.

    JavaScript objects live in a store ([heap]) and are named by references
    ([loc]), so that two names of one object see each other's writes.  An
    object is the list of its own properties in insertion order, which is the
    order [Object.keys] and [querystring.stringify] walk (keys that look like
    array indices, which JavaScript moves to the front, are not used by this
    code).  Strings are byte strings; what [querystring.stringify] returns is
    percent-encoded ASCII, so that its [length] counts its bytes. *)

From Stdlib Require Import ZArith String Ascii List Bool Lia.
From stdpp Require Import base option list strings gmap pretty.

Local Open Scope string_scope.

(** ** JavaScript values on the request side *)

Definition loc := nat.

Inductive value :=
  | VUndefined
  | VNull
  | VBool (b : bool)
  | VNum (n : Z)
  | VStr (s : string)
  | VRef (l : loc).

Definition obj := list (string * value).

Abbreviation heap := (gmap loc obj).

(** [o[k]] for an own property; [undefined] when there is none. *)
Fixpoint obj_get (k : string) (o : obj) : value :=
  match o with
  | [] => VUndefined
  | (k', v) :: o' => if String.eqb k k' then v else obj_get k o'
  end.

(** [o[k] = v]: an existing property keeps its place, a new one goes last. *)
Fixpoint obj_set (k : string) (v : value) (o : obj) : obj :=
  match o with
  | [] => [(k, v)]
  | (k', v') :: o' =>
      if String.eqb k k' then (k', v) :: o' else (k', v') :: obj_set k v o'
  end.

(** [Object.keys(o)] *)
Definition keys (o : obj) : list string := map fst o.

Definition has_key (k : string) (o : obj) : bool :=
  existsb (String.eqb k) (keys o).

Definition heap_obj (h : heap) (l : loc) : obj := default [] (h !! l).

Definition heap_get (l : loc) (k : string) (h : heap) : value :=
  obj_get k (heap_obj h l).

Definition heap_set (l : loc) (k : string) (v : value) (h : heap) : heap :=
  <[l := obj_set k v (heap_obj h l)]> h.

(** A new object: [{}] or an object literal. *)
Definition alloc (o : obj) (h : heap) : loc * heap :=
  let l := fresh (dom h) in (l, <[l := o]> h).

(** ToString, as [+] with a string operand applies it (a number is an
    integer in plain decimal notation). *)
Definition to_string (v : value) : string :=
  match v with
  | VUndefined => "undefined"
  | VNull => "null"
  | VBool true => "true"
  | VBool false => "false"
  | VNum n => pretty n
  | VStr s => s
  | VRef _ => "[object Object]"
  end.

(** ToBoolean *)
Definition truthy (v : value) : bool :=
  match v with
  | VUndefined | VNull => false
  | VBool b => b
  | VNum n => negb (Z.eqb n 0)
  | VStr s => negb (String.eqb s EmptyString)
  | VRef _ => true
  end.

(** ** [util._extend(origin, add)]

    Node's helper: nothing happens unless [add] is an object; otherwise its
    keys are walked from the last to the first ([while (i--)]) and each is
    assigned on [origin], reading [add[keys[i]]] at that moment. *)

Fixpoint extend_keys (ks : list string) (origin add : loc) (h : heap) : heap :=
  match ks with
  | [] => h
  | k :: ks' => extend_keys ks' origin add (heap_set origin k (heap_get add k h) h)
  end.

Definition _extend (origin : loc) (add : value) (h : heap) : heap :=
  match add with
  | VRef a => extend_keys (rev (keys (heap_obj h a))) origin a h
  | _ => h
  end.

(** ** The pieces of [request]

    [Api.Methods] is declared by the constructor module. *)

Module Methods.
(** Modelled from the spec: the constants of [Api.Methods], which
    [requestHasData] reads and the constructor module (not part of the
    sources at hand) declares; the spec gives the enumeration as
    "GET" | "POST" | "PUT" | "DELETE". *)
Definition GET : string := "GET".
Definition POST : string := "POST".
Definition PUT : string := "PUT".
Definition DELETE : string := "DELETE".
End Methods.

(** [a === b] on the values at hand (two references are equal when they name
    the same object). *)
Definition strict_eq (a b : value) : bool :=
  match a, b with
  | VUndefined, VUndefined | VNull, VNull => true
  | VBool x, VBool y => Bool.eqb x y
  | VNum x, VNum y => Z.eqb x y
  | VStr x, VStr y => String.eqb x y
  | VRef x, VRef y => Nat.eqb x y
  | _, _ => false
  end.

Definition requestHasData (method : value) : bool :=
  negb (strict_eq method (VStr Methods.GET)) &&
  negb (strict_eq method (VStr Methods.PUT)).

(** The [fields] argument: omitted (or any other falsy non-string), a bare
    string, or an array of names. *)
Inductive fields_arg :=
  | FieldsNone
  | FieldsStr (f : string)
  | FieldsArr (fs : list string).

(** [fields = fields || []; if (typeof fields === 'string') fields = [fields]].
    The empty string is falsy, so it becomes the empty array. *)
Definition normalize_fields (fields : fields_arg) : list string :=
  match fields with
  | FieldsNone => []
  | FieldsStr f => if truthy (VStr f) then [f] else []
  | FieldsArr fs => fs
  end.

(** [fields.join()], the separator being the comma. *)
Definition join (fields : list string) : string := String.concat "," fields.

(** [s.indexOf(needle)]: the first position of [needle], or -1. *)
Definition indexOf (needle s : string) : Z :=
  match String.index 0 needle s with
  | Some n => Z.of_nat n
  | None => -1
  end.

(** [target[k] = v] where [target] is any value: a TypeError on [undefined]
    and [null], no effect on another primitive (the module is not in strict
    mode). *)
Definition set_member (target : value) (k : string) (v : value) (h : heap)
  : option heap :=
  match target with
  | VRef l => Some (heap_set l k v h)
  | VUndefined | VNull => None
  | _ => Some h
  end.

(** The instance: [this.httpParams], [this.httpOptions] (an object) and
    [this.isBrowser]. *)
Record Api := {
  httpParams : value;
  httpOptions : loc;
  isBrowser : bool
}.

(** What the promise's executor hands to the outside. *)
Inductive issued :=
  | HttpRequest (options : loc) (body : option string)
  | LoadScript (url : string).

Record outcome := {
  out_heap : heap;
  out_params : loc;
  out_options : loc;
  out_paramsQS : string;
  out_issued : issued
}.

(** A call returns its promise, or throws the TypeError of line 56. *)
Inductive completion :=
  | Returned (r : outcome)
  | Threw (h : heap).

Section Request.

(** [querystring.stringify] of Node, on the object's own properties. *)
Variable stringify : obj -> string.

(** Lines 36-37. *)
Definition merge_params (this : Api) (params : option loc) (h : heap)
  : loc * heap :=
  let '(p, h) := match params with
                 | Some p => (p, h)
                 | None => alloc [] h
                 end in
  (p, _extend p (httpParams this) h).

(** Lines 39-47. *)
Definition build_options (this : Api) (path method : string) (h : heap)
  : loc * heap :=
  let '(options, h) := alloc [] h in
  let h := _extend options (VRef (httpOptions this)) h in
  let h := heap_set options "method" (VStr method) h in
  let base := to_string (heap_get (httpOptions this) "path" h) in
  if (indexOf "/" path =? 0)%Z
  then (options, heap_set options "path" (VStr (base +:+ path)) h)
  else (options, heap_set options "path" (VStr (base +:+ "/" +:+ path)) h).

(** Lines 49-51. *)
Definition set_fields (params : loc) (fields : list string) (h : heap) : heap :=
  if negb (length fields =? 0)%nat
  then heap_set params "fields" (VStr (join fields)) h
  else h.

(** Lines 82-88: the JSONP parameters and the script's URL. *)
Definition jsonp_url (params options : loc) (method : string) (h : heap)
  : string * heap :=
  let '(lit, h) :=
    alloc [("jsonp", VStr "callback"); ("method", VStr method)] h in
  let h := _extend params (VRef lit) h in
  let part k := to_string (heap_get options k h) in
  (part "protocol" +:+ "//" +:+ part "host" +:+ ":" +:+ part "port" +:+
   part "path" +:+ "?" +:+ stringify (heap_obj h params), h).

(** Lines 31-51: everything before the parameters are serialized. *)
Definition prepare (this : Api) (path : string) (params : option loc)
    (fields : fields_arg) (method : string) (h : heap) : loc * loc * heap :=
  let fields := normalize_fields fields in
  let '(params, h) := merge_params this params h in
  let '(options, h) := build_options this path method h in
  (params, options, set_fields params fields h).

(** Lines 54-62: where the serialized parameters go.  [None] is the
    TypeError of assigning a property of [undefined] or [null]. *)
Definition place_params (this : Api) (options : loc) (paramsQS : string)
    (h : heap) : option heap :=
  if truthy (VStr paramsQS) then
    if requestHasData (heap_get options "method" h) then
      h ← set_member (heap_get options "headers" h) "Content-Type"
            (VStr "application/x-www-form-urlencoded") h;
      set_member (heap_get options "headers" h) "Content-Length"
            (VNum (Z.of_nat (String.length paramsQS))) h
    else if negb (isBrowser this) then
      Some (heap_set options "path"
              (VStr (to_string (heap_get options "path" h) +:+ "?" +:+ paramsQS)) h)
    else Some h
  else Some h.

Definition request (this : Api) (path : string) (params : option loc)
    (fields : fields_arg) (method : string) (h : heap) : completion :=
  let '(params, options, h) := prepare this path params fields method h in
  let paramsQS := stringify (heap_obj h params) in
  match place_params this options paramsQS h with
  | None => Threw h
  | Some h =>
      if isBrowser this then
        let '(url, h) := jsonp_url params options method h in
        Returned {| out_heap := h; out_params := params; out_options := options;
                    out_paramsQS := paramsQS; out_issued := LoadScript url |}
      else
        let body :=
          if truthy (VStr paramsQS) && requestHasData (heap_get options "method" h)
          then Some paramsQS else None in
        Returned {| out_heap := h; out_params := params; out_options := options;
                    out_paramsQS := paramsQS;
                    out_issued := HttpRequest options body |}
  end.

End Request.

(** ** Vocabulary of the statements *)

(** The references of a call name live objects of the store. *)
Definition live_call (this : Api) (params : option loc) (h : heap) : Prop :=
  httpOptions this ∈ dom h ∧ ∀ p, params = Some p → p ∈ dom h.

(** [params[k]] as the caller passed it. *)
Definition caller_param (params : option loc) (k : string) (h : heap) : value :=
  match params with
  | Some p => heap_get p k h
  | None => VUndefined
  end.

(** The object [this.httpParams], when it is one. *)
Definition defaults (this : Api) (h : heap) : obj :=
  match httpParams this with
  | VRef d => heap_obj h d
  | _ => []
  end.

(** What the object that is serialized holds under [k]: the joined field
    list under ["fields"] when there is one, else the instance's default when
    [this.httpParams] has the key, else the caller's entry. *)
Definition serialized_param (this : Api) (params : option loc)
    (fields : fields_arg) (h : heap) (k : string) : value :=
  let fs := normalize_fields fields in
  if negb (length fs =? 0)%nat && String.eqb k "fields" then VStr (join fs)
  else if has_key k (defaults this h) then obj_get k (defaults this h)
  else caller_param params k h.

Definition begins_with_slash (path : string) : Prop :=
  ∃ rest, path = String "/" rest.

(** The path of lines 42-47, before any query string: the base path and
    [path] with no separator added when [path] begins with one, with exactly
    one otherwise. *)
Definition is_joined_path (this : Api) (path : string) (h : heap)
    (joined : string) : Prop :=
  let base := to_string (heap_get (httpOptions this) "path" h) in
  (begins_with_slash path → joined = base +:+ path) ∧
  ((¬ begins_with_slash path) → joined = base +:+ "/" +:+ path).

(** A [fields] argument that names at least one field. *)
Definition nonempty_fields (fields : fields_arg) : Prop :=
  match fields with
  | FieldsNone => False
  | FieldsStr f => f ≠ EmptyString
  | FieldsArr fs => fs ≠ []
  end.

(** The names of [fields] in their order, with commas between them; a bare
    string is itself. *)
Definition comma_joined (fields : fields_arg) : string :=
  match fields with
  | FieldsNone => EmptyString
  | FieldsStr f => f
  | FieldsArr fs => String.concat "," fs
  end.

(** [body] after the chunks arrived: [body += chunk] from the empty string. *)
Definition accumulated (chunks : list string) : string :=
  fold_left String.append chunks EmptyString.

(** The spec's merge: the defaults first, then every entry of the caller's
    object assigned over them. *)
Definition spec_merge (defaults params : obj) : obj :=
  fold_left (λ o kv, obj_set (fst kv) (snd kv) o) params defaults.

(** ** The response side

    What [JSON.parse] builds and the JSONP callback receives shares nothing
    with the store above, so it is a tree.  [JError] is an [Error] object of
    the transport. *)

#[local] Set Warnings "-register-all".

Inductive jsval :=
  | JUndefined
  | JNull
  | JBool (b : bool)
  | JNum (n : Z)
  | JStr (s : string)
  | JArr (items : list jsval)
  | JObj (members : list (string * jsval))
  | JError (message : string).

Fixpoint members_get (k : string) (ms : list (string * jsval)) : jsval :=
  match ms with
  | [] => JUndefined
  | (k', v) :: ms' => if String.eqb k k' then v else members_get k ms'
  end.

(** [v.error] and [v.data]: a TypeError ([None]) on [undefined] and [null];
    strings, numbers, booleans, arrays and errors have neither property. *)
Definition member (v : jsval) (k : string) : option jsval :=
  match v with
  | JUndefined | JNull => None
  | JObj ms => Some (members_get k ms)
  | _ => Some JUndefined
  end.

Definition jtruthy (v : jsval) : bool :=
  match v with
  | JUndefined | JNull => false
  | JBool b => b
  | JNum n => negb (Z.eqb n 0)
  | JStr s => negb (String.eqb s EmptyString)
  | JArr _ | JObj _ | JError _ => true
  end.

(** A promise settles once: [resolve] and [reject] on a settled promise do
    nothing. *)
Inductive promise :=
  | Pending
  | Resolved (v : jsval)
  | Rejected (reason : jsval).

Definition resolve (v : jsval) (p : promise) : promise :=
  match p with Pending => Resolved v | _ => p end.

Definition reject (reason : jsval) (p : promise) : promise :=
  match p with Pending => Rejected reason | _ => p end.

(** What the outside does after the request was issued: the transport calls
    the response callback, the response emits ['data'] and ['end'], the
    transport fails ([EvError]: the request emits ['error']; in the browser the
    script element does); in the browser the loaded script calls
    [window.callback]. *)
Inductive event :=
  | EvResponse
  | EvData (chunk : string)
  | EvEnd
  | EvError (e : jsval)
  | EvCallback (jsonpData : jsval).

(** The promise and the [body] variable of the response callback ([None]
    until the callback ran). *)
Record pending_call := {
  settled : promise;
  body : option string
}.

Definition initial : pending_call := {| settled := Pending; body := None |}.

Section Dispatch.

(** [JSON.parse]: [None] when it throws. *)
Variable JSON_parse : string -> option jsval.

(** Lines 112-127, the ['end'] listener.  A TypeError of [data.error] (the
    body [null]) escapes the listener and leaves the promise as it was. *)
Definition on_end (text : string) (p : promise) : promise :=
  match JSON_parse text with
  | None => reject (JStr text) p
  | Some data =>
      match member data "error" with
      | None => p
      | Some e =>
          if jtruthy e then reject data p
          else match member data "data" with
               | Some d => resolve d p
               | None => p
               end
      end
  end.

(** Lines 104-133. *)
Definition server_step (c : pending_call) (ev : event) : pending_call :=
  match ev with
  | EvResponse => {| settled := settled c; body := Some EmptyString |}
  | EvData chunk =>
      {| settled := settled c; body := (λ b, b +:+ chunk) <$> body c |}
  | EvEnd =>
      match body c with
      | Some text => {| settled := on_end text (settled c); body := body c |}
      | None => c
      end
  | EvError e => {| settled := reject e (settled c); body := body c |}
  | EvCallback _ => c
  end.

(** Lines 89-96, [window.callback]. *)
Definition on_callback (jsonpData : jsval) (p : promise) : promise :=
  match member jsonpData "error" with
  | None => p
  | Some e =>
      if jtruthy e then reject e p
      else match member jsonpData "data" with
           | Some d => resolve d p
           | None => p
           end
  end.

(** In the browser the callback is the only listener that reaches the
    promise: the script's [onload] (lines 70-78) removes the element and no
    [onerror] is installed. *)
Definition browser_step (c : pending_call) (ev : event) : pending_call :=
  match ev with
  | EvCallback jsonpData =>
      {| settled := on_callback jsonpData (settled c); body := body c |}
  | _ => c
  end.

(** The promise [request] returned, after the outside did [evs]. *)
Definition settle (r : outcome) (evs : list event) : promise :=
  match out_issued r with
  | HttpRequest _ _ => settled (fold_left server_step evs initial)
  | LoadScript _ => settled (fold_left browser_step evs initial)
  end.

End Dispatch.

(** ** Reference instances of the two library functions

    [request] and [settle] take [querystring.stringify] and [JSON.parse] as
    they come; the instances below follow Node's [querystring] module and the
    JSON grammar, and serve to run the model on concrete calls. *)

Module QueryString.

(** The characters [encodeURIComponent] leaves alone:
    letters, digits and [- _ . ! ~ * ' ( )]. *)
Definition unreserved (c : ascii) : bool :=
  let n := nat_of_ascii c in
  ((65 <=? n)%nat && (n <=? 90)%nat) || ((97 <=? n)%nat && (n <=? 122)%nat) ||
  ((48 <=? n)%nat && (n <=? 57)%nat) ||
  existsb (Nat.eqb n) [45; 95; 46; 33; 126; 42; 39; 40; 41].

Definition hex_digit (n : nat) : ascii :=
  if (n <? 10)%nat then ascii_of_nat (48 + n) else ascii_of_nat (55 + n).

(** [QueryString.escape], byte by byte. *)
Fixpoint escape (s : string) : string :=
  match s with
  | EmptyString => EmptyString
  | String c s' =>
      if unreserved c then String c (escape s')
      else let n := nat_of_ascii c in
           String "%" (String (hex_digit (n / 16))
                         (String (hex_digit (n mod 16)) (escape s')))
  end.

Definition stringifyPrimitive (v : value) : string :=
  match v with
  | VStr s => s
  | VBool true => "true"
  | VBool false => "false"
  | VNum n => pretty n
  | _ => EmptyString
  end.

(** [querystring.stringify(obj)] with the default separators, for an object
    none of whose values is an array. *)
Definition stringify (o : obj) : string :=
  String.concat "&"
    (map (λ kv, escape (fst kv) +:+ "=" +:+ escape (stringifyPrimitive (snd kv))) o).

End QueryString.

Module JSON.

Definition dquote : ascii := "034"%char.

Definition is_ws (c : ascii) : bool :=
  existsb (Nat.eqb (nat_of_ascii c)) [32; 9; 10; 13].

Definition is_digit (c : ascii) : bool :=
  let n := nat_of_ascii c in (48 <=? n)%nat && (n <=? 57)%nat.

Fixpoint skip_ws (s : string) : string :=
  match s with
  | String c s' => if is_ws c then skip_ws s' else s
  | EmptyString => s
  end.

(** The rest of a string literal after its opening quote. *)
Fixpoint string_body (s : string) : option (string * string) :=
  match s with
  | EmptyString => None
  | String c s' =>
      if Ascii.eqb c dquote then Some (EmptyString, s')
      else if Ascii.eqb c "\" then
        match s' with
        | String e s'' =>
            let unescaped :=
              if Ascii.eqb e dquote then Some dquote
              else if Ascii.eqb e "\" then Some "\"%char
              else if Ascii.eqb e "/" then Some "/"%char
              else if Ascii.eqb e "b" then Some "008"%char
              else if Ascii.eqb e "f" then Some "012"%char
              else if Ascii.eqb e "n" then Some "010"%char
              else if Ascii.eqb e "r" then Some "013"%char
              else if Ascii.eqb e "t" then Some "009"%char
              else None in
            u ← unescaped;
            '(t, rest) ← string_body s'';
            Some (String u t, rest)
        | EmptyString => None
        end
      else if (nat_of_ascii c <? 32)%nat then None
      else '(t, rest) ← string_body s'; Some (String c t, rest)
  end.

Fixpoint digits (acc : Z) (s : string) : Z * string :=
  match s with
  | String c s' =>
      if is_digit c
      then digits (10 * acc + Z.of_nat (nat_of_ascii c - 48)) s'
      else (acc, s)
  | EmptyString => (acc, s)
  end.

(** An integer: no leading zero, no fraction, no exponent. *)
Definition integer (s : string) : option (Z * string) :=
  let '(neg, s) := match s with
                   | String "-" s' => (true, s')
                   | _ => (false, s)
                   end in
  match s with
  | String c s' =>
      if is_digit c then
        let '(n, rest) := if Ascii.eqb c "0" then (0%Z, s') else digits 0 s in
        match rest with
        | String d _ =>
            if is_digit d || existsb (Ascii.eqb d) ["."; "e"; "E"]%char
            then None
            else Some (if neg then (- n)%Z else n, rest)
        | EmptyString => Some (if neg then (- n)%Z else n, rest)
        end
      else None
  | EmptyString => None
  end.

(** A later member of the same name replaces the value and keeps the place. *)
Fixpoint members_set (k : string) (v : jsval) (ms : list (string * jsval))
  : list (string * jsval) :=
  match ms with
  | [] => [(k, v)]
  | (k', v') :: ms' =>
      if String.eqb k k' then (k', v) :: ms' else (k', v') :: members_set k v ms'
  end.

Definition literal (word : string) (v : jsval) (s : string)
  : option (jsval * string) :=
  if String.prefix word s
  then Some (v, String.substring (String.length word)
                  (String.length s - String.length word) s)
  else None.

Fixpoint value (fuel : nat) (s : string) : option (jsval * string) :=
  match fuel with
  | O => None
  | S fuel =>
      match skip_ws s with
      | String "{" s' =>
          match skip_ws s' with
          | String "}" rest => Some (JObj [], rest)
          | _ => members fuel [] s'
          end
      | String "[" s' =>
          match skip_ws s' with
          | String "]" rest => Some (JArr [], rest)
          | _ => elements fuel [] s'
          end
      | String "n" _ as t => literal "null" JNull t
      | String "t" _ as t => literal "true" (JBool true) t
      | String "f" _ as t => literal "false" (JBool false) t
      | String c s' as t =>
          if Ascii.eqb c dquote
          then '(str, rest) ← string_body s'; Some (JStr str, rest)
          else '(n, rest) ← integer t; Some (JNum n, rest)
      | EmptyString => None
      end
  end
with elements (fuel : nat) (acc : list jsval) (s : string)
  : option (jsval * string) :=
  match fuel with
  | O => None
  | S fuel =>
      '(v, rest) ← value fuel s;
      match skip_ws rest with
      | String "," rest' => elements fuel (acc ++ [v]) rest'
      | String "]" rest' => Some (JArr (acc ++ [v]), rest')
      | _ => None
      end
  end
with members (fuel : nat) (acc : list (string * jsval)) (s : string)
  : option (jsval * string) :=
  match fuel with
  | O => None
  | S fuel =>
      match skip_ws s with
      | String c s' =>
          if Ascii.eqb c dquote then
            '(k, rest) ← string_body s';
            match skip_ws rest with
            | String ":" rest' =>
                '(v, rest'') ← value fuel rest';
                match skip_ws rest'' with
                | String "," rest3 => members fuel (members_set k v acc) rest3
                | String "}" rest3 => Some (JObj (members_set k v acc), rest3)
                | _ => None
                end
            | _ => None
            end
          else None
      | EmptyString => None
      end
  end.

(** [JSON.parse(text)] on the texts whose numbers are integers and whose
    strings have no [\u] escape; [None] is a SyntaxError. *)
Definition parse (text : string) : option jsval :=
  '(v, rest) ← value (2 * String.length text + 2) text;
  match skip_ws rest with
  | EmptyString => Some v
  | _ => None
  end.

(** A string literal of JSON text, for writing bodies down. *)
Definition quoted (s : string) : string :=
  String dquote (s +:+ String dquote EmptyString).

End JSON.

(** ** A sample instance and store

    Object 0 is [this.httpOptions], 1 its [headers], 2 [this.httpParams] and
    3 a caller's [params]. *)

Module Sample.

Definition store : heap :=
  <[0 := [("protocol", VStr "https:"); ("host", VStr "example.attask.com");
          ("port", VNum 443); ("path", VStr "/attask/api");
          ("headers", VRef 1)]]>
  (<[1 := []]>
  (<[2 := [("a", VStr "2"); ("sessionID", VStr "s")]]>
  (<[3 := [("a", VStr "1"); ("b", VStr "x")]]> ∅))).

Definition server : Api :=
  {| httpParams := VRef 2; httpOptions := 0; isBrowser := false |}.

Definition browser : Api :=
  {| httpParams := VRef 2; httpOptions := 0; isBrowser := true |}.

(** The response bodies of the spec's examples. *)
Definition body_data : string :=
  "{" +:+ JSON.quoted "data" +:+ ":{" +:+ JSON.quoted "id" +:+ ":1}}".

Definition body_error : string :=
  "{" +:+ JSON.quoted "error" +:+ ":" +:+ JSON.quoted "not found" +:+ "}".

Definition body_not_json : string := "not-json".

Definition body_falsy_error : string :=
  "{" +:+ JSON.quoted "error" +:+ ":0," +:+ JSON.quoted "data" +:+ ":"
  +:+ JSON.quoted "ok" +:+ "}".

End Sample.

(** ** The earlier [request] of [src/request.js]

    [ctor.prototype.request]: no default parameters, no body, no JSONP; the
    path is put together by Node's [path.join] and always gets a query
    string. *)

Module Ctor.

(** [fields = fields || []]: a non-empty string stays a string. *)
Definition defaulted_fields (fields : fields_arg) : fields_arg :=
  match fields with
  | FieldsNone => FieldsArr []
  | FieldsStr f => if truthy (VStr f) then FieldsStr f else FieldsArr []
  | FieldsArr fs => FieldsArr fs
  end.

(** [method = method || this.httpOptions.method] *)
Definition defaulted_method (this : Api) (method : option string) (h : heap)
  : value :=
  match method with
  | Some m => if truthy (VStr m) then VStr m
              else heap_get (httpOptions this) "method" h
  | None => heap_get (httpOptions this) "method" h
  end.

(** Lines 18-20: [params[fields] = fields.join()].  The key is the array
    turned into a string, which is its comma-join; a string has no [join],
    so the call is a TypeError ([None]). *)
Definition set_fields (params : loc) (fields : fields_arg) (h : heap)
  : option heap :=
  match fields with
  | FieldsNone => Some h
  | FieldsStr f => if negb (String.length f =? 0)%nat then None else Some h
  | FieldsArr fs =>
      if negb (length fs =? 0)%nat
      then Some (heap_set params (join fs) (VStr (join fs)) h)
      else Some h
  end.

(** What lines 18-20 make of the parameters object. *)
Definition with_fields (fields : fields_arg) (o : obj) : obj :=
  match defaulted_fields fields with
  | FieldsArr (f :: fs) => obj_set (join (f :: fs)) (VStr (join (f :: fs))) o
  | _ => o
  end.

Inductive completion :=
  | Returned (params options : loc) (h : heap)
  | Threw (h : heap).

Section Request.

Variable stringify : obj -> string.

(** [path.join(a, b)] of Node; [None] when it throws (an argument that is no
    string). *)
Variable path_join : value -> string -> option string.

Definition request (this : Api) (path : string) (params : option loc)
    (fields : fields_arg) (method : option string) (h : heap) : completion :=
  let '(params, h) := match params with
                      | Some p => (p, h)
                      | None => alloc [] h
                      end in
  let fields := defaulted_fields fields in
  let method := defaulted_method this method h in
  let '(options, h) := alloc [] h in
  let h := _extend options (VRef (httpOptions this)) h in
  let h := heap_set options "method" method h in
  match path_join (heap_get (httpOptions this) "path" h) path with
  | None => Threw h
  | Some joined =>
      let h := heap_set options "path" (VStr joined) h in
      match set_fields params fields h with
      | None => Threw h
      | Some h =>
          Returned params options
            (heap_set options "path"
               (VStr (to_string (heap_get options "path" h) +:+ "?" +:+
                      stringify (heap_obj h params))) h)
      end
  end.

End Request.

Section Dispatch.

Variable JSON_parse : string -> option jsval.

(** Lines 37-44: [JSON.parse] stands outside any [try]; when it throws, the
    listener ends there and the promise is left as it was. *)
Definition on_end (text : string) (p : promise) : promise :=
  match JSON_parse text with
  | None => p
  | Some data =>
      match member data "error" with
      | None => p
      | Some e =>
          if jtruthy e then reject data p
          else match member data "data" with
               | Some d => resolve d p
               | None => p
               end
      end
  end.

(** Lines 31-47. *)
Definition step (c : pending_call) (ev : event) : pending_call :=
  match ev with
  | EvResponse => {| settled := settled c; body := Some EmptyString |}
  | EvData chunk =>
      {| settled := settled c; body := (λ b, b +:+ chunk) <$> body c |}
  | EvEnd =>
      match body c with
      | Some text => {| settled := on_end text (settled c); body := body c |}
      | None => c
      end
  | EvError e => {| settled := reject e (settled c); body := body c |}
  | EvCallback _ => c
  end.

Definition settle (evs : list event) : promise :=
  settled (fold_left step evs initial).

End Dispatch.

End Ctor.

(** ** [loadScript] (lines 65-80)

    The page is the children of [head], by element, and the script elements
    with the handler's state: whether [onload]/[onreadystatechange] still
    hold the handler, and the [done] flag of its closure. *)

Module Dom.

Record script := {
  src : string;
  async : bool;
  listening : bool;
  done : bool
}.

Record page := {
  head : list nat;
  scripts : gmap nat script
}.

(** [createElement], the four assignments and [appendChild]. *)
Definition loadScript (url : string) (d : page) : nat * page :=
  let el := fresh (dom (scripts d) ∪ list_to_set (head d)) in
  (el, {| head := head d ++ [el];
          scripts := <[el := {| src := url; async := true;
                                listening := true; done := false |}]>
                       (scripts d) |}).

(** The test of line 71 on [this.readyState]. *)
Definition ready (readyState : value) : bool :=
  negb (truthy readyState) || strict_eq readyState (VStr "loaded")
  || strict_eq readyState (VStr "complete").

(** The element fires [load] or [readystatechange] while its [readyState]
    is [readyState]. *)
Definition fire (el : nat) (readyState : value) (d : page) : page :=
  match scripts d !! el with
  | Some s =>
      if listening s && negb (done s) && ready readyState then
        {| head := filter (λ child, child ≠ el) (head d);
           scripts := <[el := {| src := src s; async := async s;
                                 listening := false; done := true |}]>
                        (scripts d) |}
      else d
  | None => d
  end.

End Dom.

(** ** More sample data *)

Module Fixture.

(** An instance whose [httpOptions] has no [headers]. *)
Definition bare_store : heap :=
  <[0 := [("protocol", VStr "https:"); ("host", VStr "example.attask.com");
          ("port", VNum 443); ("path", VStr "/attask/api")]]>
  (<[2 := [("sessionID", VStr "s")]]>
  (<[3 := [("a", VStr "1")]]> ∅)).

(** [path.join] on a base path and a relative path that need no
    normalizing. *)
Definition path_join (base : value) (path : string) : option string :=
  match base with
  | VStr b => Some (b +:+ "/" +:+ path)
  | _ => None
  end.

Definition body_null : string := "null".

Definition body_number : string := "5".

End Fixture.

(** * The model at work *)

Example extend_ex :
  heap_obj (_extend 0 (VRef 1)
     (<[0 := [("a", VStr "1")]]> (<[1 := [("b", VNum 2); ("a", VStr "z")]]> ∅))) 0
  = [("a", VStr "z"); ("b", VNum 2)].
Proof. vm_compute. reflexivity. Qed.

Example alloc_ex :
  fst (alloc [] (<[0 := [("a", VStr "1")]]> (<[1 := []]> ∅))) = 2.
Proof. vm_compute. reflexivity. Qed.

Example pretty_ex : to_string (VNum (-12)) = "-12".
Proof. vm_compute. reflexivity. Qed.

Example escape_ex : QueryString.stringify [("a b", VStr "x&y"); ("n", VNum 3)] = "a%20b=x%26y&n=3".
Proof. vm_compute. reflexivity. Qed.

Example parse_ex :
  JSON.parse ("{" +:+ JSON.quoted "data" +:+ ": {" +:+ JSON.quoted "id" +:+ ":1}, "
              +:+ JSON.quoted "l" +:+ ":[1, -2,true ,null]} ")
  = Some (JObj [("data", JObj [("id", JNum 1)]);
                ("l", JArr [JNum 1; JNum (-2); JBool true; JNull])]).
Proof. vm_compute. reflexivity. Qed.

Example parse_bad : JSON.parse "not-json" = None.
Proof. vm_compute. reflexivity. Qed.

(** * The store *)

Lemma obj_get_set k k' v o :
  obj_get k' (obj_set k v o) = if String.eqb k' k then v else obj_get k' o.
Proof.
  induction o as [|[k0 v0] o IH]; simpl.
  - destruct (String.eqb k' k); reflexivity.
  - destruct (String.eqb_spec k k0) as [->|Hk]; simpl.
    + destruct (String.eqb k' k0); reflexivity.
    + rewrite IH. destruct (String.eqb_spec k' k0) as [->|Hk'].
      * apply String.eqb_neq in Hk. rewrite String.eqb_sym in Hk. now rewrite Hk.
      * reflexivity.
Qed.

Lemma obj_get_no_key k o : has_key k o = false → obj_get k o = VUndefined.
Proof.
  unfold has_key, keys. induction o as [|[k0 v0] o IH]; simpl; [reflexivity|].
  destruct (String.eqb k k0); simpl; [discriminate | exact IH].
Qed.

Lemma heap_obj_set l l' k v (h : heap) :
  heap_obj (heap_set l k v h) l'
  = if decide (l' = l) then obj_set k v (heap_obj h l) else heap_obj h l'.
Proof.
  unfold heap_set, heap_obj at 1. case_decide as Hl.
  - subst. now rewrite lookup_insert_eq.
  - rewrite lookup_insert_ne by congruence. reflexivity.
Qed.

Lemma heap_get_set l l' k k' v (h : heap) :
  heap_get l' k' (heap_set l k v h)
  = if decide (l' = l)
    then if String.eqb k' k then v else heap_get l k' h
    else heap_get l' k' h.
Proof.
  unfold heap_get. rewrite heap_obj_set. case_decide; [|reflexivity].
  apply obj_get_set.
Qed.

Lemma heap_get_set_same l k v (h : heap) : heap_get l k (heap_set l k v h) = v.
Proof.
  rewrite heap_get_set, decide_True by reflexivity. now rewrite String.eqb_refl.
Qed.

(** A write under one key is not seen under another, whatever the objects. *)
Lemma heap_get_set_key l l' k k' v (h : heap) :
  k' ≠ k → heap_get l' k' (heap_set l k v h) = heap_get l' k' h.
Proof.
  intros Hk. rewrite heap_get_set. apply String.eqb_neq in Hk. rewrite Hk.
  case_decide; congruence.
Qed.

Lemma dom_heap_set l k v (h : heap) : dom (heap_set l k v h) = {[l]} ∪ dom h.
Proof. unfold heap_set. apply dom_insert_L. Qed.

Lemma alloc_fresh o (h : heap) : fst (alloc o h) ∉ dom h.
Proof. unfold alloc; simpl. apply is_fresh. Qed.

Lemma alloc_dom o (h : heap) :
  dom (snd (alloc o h)) = {[fst (alloc o h)]} ∪ dom h.
Proof. unfold alloc; simpl. apply dom_insert_L. Qed.

Lemma alloc_new o (h : heap) : heap_obj (snd (alloc o h)) (fst (alloc o h)) = o.
Proof. unfold alloc, heap_obj; simpl. now rewrite lookup_insert_eq. Qed.

Lemma alloc_frame o l (h : heap) :
  l ≠ fst (alloc o h) → heap_obj (snd (alloc o h)) l = heap_obj h l.
Proof.
  intros Hl. unfold alloc, heap_obj; simpl.
  rewrite lookup_insert_ne; [reflexivity|]. intros Heq. now apply Hl.
Qed.

(** * [util._extend] *)

Lemma extend_keys_get ks t a k (h : heap) :
  heap_get t k (extend_keys ks t a h)
  = if existsb (String.eqb k) ks then heap_get a k h else heap_get t k h.
Proof.
  revert h. induction ks as [|k0 ks IH]; intros h; simpl; [reflexivity|].
  rewrite IH, !heap_get_set.
  destruct (String.eqb_spec k k0) as [->|Hk]; simpl;
    destruct (existsb _ ks); repeat case_decide; congruence.
Qed.

Lemma extend_keys_frame ks t a l (h : heap) :
  l ≠ t → heap_obj (extend_keys ks t a h) l = heap_obj h l.
Proof.
  intros Hl. revert h. induction ks as [|k0 ks IH]; intros h; simpl; [reflexivity|].
  rewrite IH, heap_obj_set. now rewrite decide_False.
Qed.

Lemma extend_keys_key ks t a l k (h : heap) :
  existsb (String.eqb k) ks = false →
  heap_get l k (extend_keys ks t a h) = heap_get l k h.
Proof.
  revert h. induction ks as [|k0 ks IH]; intros h; simpl; [reflexivity|].
  intros [Hk Hks]%orb_false_elim. rewrite IH by exact Hks.
  apply heap_get_set_key. now apply String.eqb_neq.
Qed.

Lemma extend_keys_dom ks t a (h : heap) : dom h ⊆ dom (extend_keys ks t a h).
Proof.
  revert h. induction ks as [|k0 ks IH]; intros h; simpl; [reflexivity|].
  etrans; [|apply IH]. rewrite dom_heap_set. set_solver.
Qed.

Lemma has_key_rev k o : existsb (String.eqb k) (rev (keys o)) = has_key k o.
Proof.
  unfold has_key. apply eq_true_iff_eq. rewrite !existsb_exists.
  split; intros (x & Hx & ?); exists x; (split; [|assumption]).
  - now apply in_rev.
  - now apply in_rev in Hx.
Qed.

(** After [_extend(origin, add)], [origin[k]] is [add[k]] for the keys of
    [add] and what it was for the others; this holds when both names denote
    one object too. *)
Lemma extend_get t a k (h : heap) :
  heap_get t k (_extend t (VRef a) h)
  = if has_key k (heap_obj h a) then heap_get a k h else heap_get t k h.
Proof. unfold _extend. now rewrite extend_keys_get, has_key_rev. Qed.

Lemma extend_frame t add l (h : heap) :
  l ≠ t → heap_obj (_extend t add h) l = heap_obj h l.
Proof.
  intros Hl. destruct add; simpl; try reflexivity. now apply extend_keys_frame.
Qed.

Lemma extend_dom t add (h : heap) : dom h ⊆ dom (_extend t add h).
Proof. destruct add; simpl; try reflexivity. apply extend_keys_dom. Qed.

Lemma indexOf_slash path :
  (indexOf "/" path =? 0)%Z = true ↔ begins_with_slash path.
Proof.
  unfold indexOf, begins_with_slash. destruct path as [|c path].
  - split; [discriminate | intros [? ?]; discriminate].
  - cbn -[Ascii.ascii_dec Z.eqb Z.of_nat].
    destruct (Ascii.ascii_dec "/" c) as [Hc|Hc].
    + subst c. destruct path; (split; [eauto | reflexivity]).
    + destruct (String.index 0 "/" path); split; try discriminate;
        intros [? ?]; congruence.
Qed.

Lemma heap_obj_dangling l (h : heap) : l ∉ dom h → heap_obj h l = [].
Proof.
  intros Hl. unfold heap_obj. destruct (h !! l) eqn:E; [|reflexivity].
  exfalso. apply Hl, elem_of_dom. eauto.
Qed.

(** * The steps of [request] *)

Lemma merge_params_spec this params h p h1 :
  (∀ q, params = Some q → q ∈ dom h) →
  merge_params this params h = (p, h1) →
  p ∈ dom h1 ∧ (dom h ⊆ dom h1) ∧
  (params = Some p ∨ p ∉ dom h) ∧
  (∀ l, l ≠ p → heap_obj h1 l = heap_obj h l) ∧
  ∀ k, heap_get p k h1
       = if has_key k (defaults this h) then obj_get k (defaults this h)
         else caller_param params k h.
Proof.
  intros Hlive. unfold merge_params, defaults, caller_param.
  destruct params as [q|].
  - intros [= <- <-]. specialize (Hlive q eq_refl).
    split; [|split; [|split; [|split]]].
    + now apply extend_dom.
    + apply extend_dom.
    + now left.
    + intros l Hl. now apply extend_frame.
    + intros k. destruct (httpParams this); try reflexivity.
      apply extend_get.
  - pose proof (alloc_fresh [] h) as Hfresh.
    pose proof (alloc_dom [] h) as Hdom.
    pose proof (alloc_new [] h) as Hnew.
    pose proof (λ l, alloc_frame [] l h) as Hframe.
    destruct (alloc [] h) as [q h0]; simpl in *.
    intros [= <- <-]. split; [|split; [|split; [|split]]].
    + apply extend_dom. rewrite Hdom.
      apply elem_of_union_l, elem_of_singleton. reflexivity.
    + etrans; [|apply extend_dom]. rewrite Hdom. apply union_subseteq_r.
    + now right.
    + intros l Hl. rewrite extend_frame by exact Hl. now apply Hframe.
    + intros k. destruct (httpParams this) as [| | | | |d];
        try (unfold heap_get; simpl; now rewrite Hnew).
      rewrite extend_get. unfold heap_get at 2. rewrite Hnew; simpl.
      destruct (decide (d = q)) as [->|Hd].
      * rewrite Hnew, (heap_obj_dangling _ _ Hfresh). reflexivity.
      * rewrite (Hframe d Hd). unfold heap_get. rewrite (Hframe d Hd).
        reflexivity.
Qed.

Lemma build_options_spec this path method h1 o h2 :
  httpOptions this ∈ dom h1 →
  build_options this path method h1 = (o, h2) →
  (o ∉ dom h1) ∧ o ∈ dom h2 ∧ (dom h1 ⊆ dom h2) ∧
  (∀ l, l ≠ o → heap_obj h2 l = heap_obj h1 l) ∧
  heap_get o "method" h2 = VStr method ∧
  (begins_with_slash path →
   heap_get o "path" h2
   = VStr (to_string (heap_get (httpOptions this) "path" h1) +:+ path)) ∧
  ((¬ begins_with_slash path) →
   heap_get o "path" h2
   = VStr (to_string (heap_get (httpOptions this) "path" h1) +:+ "/" +:+ path)) ∧
  heap_get o "headers" h2 = heap_get (httpOptions this) "headers" h1.
Proof.
  intros Hlive. unfold build_options.
  pose proof (alloc_fresh [] h1) as Hfresh.
  pose proof (alloc_dom [] h1) as Hdom.
  pose proof (alloc_new [] h1) as Hnew.
  pose proof (λ l, alloc_frame [] l h1) as Hframe.
  destruct (alloc [] h1) as [q h0]; simpl in *.
  assert (Hne : httpOptions this ≠ q) by (intros Heq; rewrite Heq in Hlive; contradiction).
  set (h' := heap_set q "method" (VStr method) (_extend q (VRef (httpOptions this)) h0)).
  assert (Hsrc : ∀ k, heap_get (httpOptions this) k h'
                      = heap_get (httpOptions this) k h1).
  { intros k. unfold h', heap_get. rewrite heap_obj_set, decide_False by exact Hne.
    rewrite extend_frame by exact Hne. now rewrite Hframe. }
  assert (Hdom' : dom h' = {[q]} ∪ dom (_extend q (VRef (httpOptions this)) h0))
    by apply dom_heap_set.
  assert (Hsub : dom h1 ⊆ dom h').
  { rewrite Hdom'. etrans; [|apply union_subseteq_r].
    etrans; [|apply extend_dom]. rewrite Hdom. apply union_subseteq_r. }
  assert (Hfr : ∀ l, l ≠ q → heap_obj h' l = heap_obj h1 l).
  { intros l Hl. unfold h'. rewrite heap_obj_set, decide_False by exact Hl.
    rewrite extend_frame by exact Hl. now apply Hframe. }
  assert (Hhd : heap_get q "headers" h' = heap_get (httpOptions this) "headers" h1).
  { unfold h'. rewrite heap_get_set_key by discriminate.
    rewrite extend_get. unfold heap_get at 2. rewrite Hnew; simpl.
    rewrite (Hframe _ Hne). unfold heap_get.
    destruct (has_key "headers" (heap_obj h1 (httpOptions this))) eqn:Hk.
    - now rewrite (Hframe _ Hne).
    - now rewrite obj_get_no_key. }
  assert (Hm : heap_get q "method" h' = VStr method) by apply heap_get_set_same.
  rewrite Hsrc.
  destruct (indexOf "/" path =? 0)%Z eqn:Hidx; intros [= <- <-];
    (split; [exact Hfresh|]);
    (split; [rewrite dom_heap_set; apply elem_of_union_l, elem_of_singleton;
             reflexivity|]);
    (split; [rewrite dom_heap_set; etrans; [exact Hsub | apply union_subseteq_r]|]);
    (split; [intros l Hl; rewrite heap_obj_set, decide_False by exact Hl; now apply Hfr|]);
    (split; [now rewrite heap_get_set_key by discriminate|]).
  - apply indexOf_slash in Hidx. split; [|split].
    + intros _. apply heap_get_set_same.
    + intros Hn. contradiction.
    + now rewrite heap_get_set_key by discriminate.
  - split; [|split].
    + intros Hs%indexOf_slash. congruence.
    + intros _. apply heap_get_set_same.
    + now rewrite heap_get_set_key by discriminate.
Qed.

Lemma set_fields_key p fs l k (h : heap) :
  k ≠ "fields" → heap_get l k (set_fields p fs h) = heap_get l k h.
Proof.
  intros Hk. unfold set_fields. destruct (negb _); [|reflexivity].
  now apply heap_get_set_key.
Qed.

Lemma set_fields_dom p fs (h : heap) : dom h ⊆ dom (set_fields p fs h).
Proof.
  unfold set_fields. destruct (negb _); [|reflexivity].
  rewrite dom_heap_set. set_solver.
Qed.

Lemma prepare_spec this path params fields method h p o h3 :
  live_call this params h →
  prepare this path params fields method h = (p, o, h3) →
  p ≠ o ∧ p ∈ dom h3 ∧ o ∈ dom h3 ∧
  (∀ k, heap_get p k h3 = serialized_param this params fields h k) ∧
  heap_get o "method" h3 = VStr method ∧
  (params ≠ Some (httpOptions this) →
   (begins_with_slash path →
    heap_get o "path" h3
    = VStr (to_string (heap_get (httpOptions this) "path" h) +:+ path)) ∧
   ((¬ begins_with_slash path) →
    heap_get o "path" h3
    = VStr (to_string (heap_get (httpOptions this) "path" h) +:+ "/" +:+ path)) ∧
   heap_get o "headers" h3 = heap_get (httpOptions this) "headers" h).
Proof.
  intros [Hopt Hpar]. unfold prepare.
  destruct (merge_params this params h) as [p1 h1] eqn:Hm.
  destruct (build_options this path method h1) as [o1 h2] eqn:Hb.
  intros [= -> -> <-].
  apply merge_params_spec in Hm as (Hp1 & Hsub1 & Hwho & Hfr1 & Hget);
    [|intros q Hq; now apply Hpar].
  apply build_options_spec in Hb as (Hof & Ho2 & Hsub2 & Hfr2 & Hmeth & Hs & Hns & Hhd);
    [|now apply Hsub1].
  assert (Hpo : p ≠ o) by (intros Heq; apply Hof; now rewrite <- Heq).
  split; [exact Hpo|]. split; [apply set_fields_dom; now apply Hsub2|].
  split; [now apply set_fields_dom|]. split.
  - intros k. unfold serialized_param, set_fields.
    destruct (negb (length (normalize_fields fields) =? 0)%nat); simpl.
    + rewrite heap_get_set, decide_True by reflexivity.
      destruct (String.eqb k "fields"); [reflexivity|].
      unfold heap_get at 1. rewrite Hfr2 by exact Hpo. apply Hget.
    + unfold heap_get at 1. rewrite Hfr2 by exact Hpo. apply Hget.
  - split; [now rewrite set_fields_key by discriminate|]. intros Halias.
    assert (Hop : httpOptions this ≠ p).
    { destruct Hwho as [->|Hfresh]; [congruence|].
      intros Heq. apply Hfresh. now rewrite <- Heq. }
    assert (Hbase : ∀ k, heap_get (httpOptions this) k h1
                         = heap_get (httpOptions this) k h).
    { intros k. unfold heap_get. now rewrite Hfr1. }
    rewrite !set_fields_key by discriminate. rewrite <- !Hbase. tauto.
Qed.


Lemma set_member_key target k v l k' (h h' : heap) :
  set_member target k v h = Some h' → k' ≠ k →
  heap_get l k' h' = heap_get l k' h.
Proof.
  intros Hs Hk. destruct target; simpl in Hs; try discriminate;
    injection Hs as <-; try reflexivity.
  now apply heap_get_set_key.
Qed.

Lemma set_member_dom target k v (h h' : heap) :
  set_member target k v h = Some h' → dom h ⊆ dom h'.
Proof.
  intros Hs. destruct target; simpl in Hs; try discriminate;
    injection Hs as <-; try reflexivity.
  rewrite dom_heap_set. apply union_subseteq_r.
Qed.

Lemma truthy_str s : truthy (VStr s) = true ↔ s ≠ EmptyString.
Proof.
  simpl. destruct (String.eqb_spec s EmptyString); simpl; split; congruence.
Qed.

Section RequestFacts.

Variable stringify : obj -> string.

(** What [place_params] writes lies under three keys. *)
Lemma place_params_key this o qs l k (h h' : heap) :
  place_params this o qs h = Some h' →
  k ≠ "Content-Type" → k ≠ "Content-Length" → k ≠ "path" →
  heap_get l k h' = heap_get l k h.
Proof.
  unfold place_params. intros Hp H1 H2 H3.
  destruct (truthy (VStr qs)); [|now injection Hp as <-].
  destruct (requestHasData _).
  - destruct (set_member _ "Content-Type" _ h) as [h1|] eqn:E1; [|discriminate].
    simpl in Hp.
    rewrite (set_member_key _ _ _ l k _ _ Hp H2).
    apply (set_member_key _ _ _ l k _ _ E1 H1).
  - destruct (negb (isBrowser this)); injection Hp as <-; [|reflexivity].
    now apply heap_get_set_key.
Qed.

Lemma place_params_dom this o qs (h h' : heap) :
  place_params this o qs h = Some h' → dom h ⊆ dom h'.
Proof.
  unfold place_params. intros Hp.
  destruct (truthy (VStr qs)); [|now injection Hp as <-].
  destruct (requestHasData _).
  - destruct (set_member _ "Content-Type" _ h) as [h1|] eqn:E1; [|discriminate].
    simpl in Hp. etrans; [eapply set_member_dom, E1 | eapply set_member_dom, Hp].
  - destruct (negb (isBrowser this)); injection Hp as <-; [|reflexivity].
    rewrite dom_heap_set. apply union_subseteq_r.
Qed.

(** The query string goes on the path exactly when there is one, the method
    carries no body and the call is not a browser's. *)
Lemma place_params_path this o qs (h h' : heap) :
  place_params this o qs h = Some h' →
  heap_get o "path" h'
  = if truthy (VStr qs) && negb (requestHasData (heap_get o "method" h))
       && negb (isBrowser this)
    then VStr (to_string (heap_get o "path" h) +:+ "?" +:+ qs)
    else heap_get o "path" h.
Proof.
  unfold place_params. intros Hp.
  destruct (truthy (VStr qs)); simpl; [|now injection Hp as <-].
  destruct (requestHasData _); simpl.
  - destruct (set_member _ "Content-Type" _ h) as [h1|] eqn:E1; [|discriminate].
    simpl in Hp.
    rewrite (set_member_key _ _ _ o "path" _ _ Hp) by discriminate.
    now rewrite (set_member_key _ _ _ o "path" _ _ E1) by discriminate.
  - destruct (negb (isBrowser this)); injection Hp as <-; [|reflexivity].
    apply heap_get_set_same.
Qed.

(** With a [headers] object the placement does not throw, and a method with
    a body leaves the two headers on that object. *)
Lemma place_params_headers this o qs hl (h : heap) :
  heap_get o "headers" h = VRef hl →
  ∃ h', place_params this o qs h = Some h' ∧
    (qs ≠ EmptyString → requestHasData (heap_get o "method" h) = true →
     heap_get hl "Content-Type" h' = VStr "application/x-www-form-urlencoded" ∧
     heap_get hl "Content-Length" h' = VNum (Z.of_nat (String.length qs))).
Proof.
  intros Hh. unfold place_params.
  destruct (truthy (VStr qs)) eqn:Ht.
  - destruct (requestHasData _) eqn:Hd.
    + rewrite Hh; simpl. rewrite heap_get_set_key, Hh by discriminate. simpl.
      eexists; split; [reflexivity|]. intros _ _. split.
      * rewrite heap_get_set_key by discriminate. apply heap_get_set_same.
      * apply heap_get_set_same.
    + destruct (negb (isBrowser this)); eexists; (split; [reflexivity|]);
        intros _ ?; discriminate.
  - eexists; split; [reflexivity|]. intros Hq%truthy_str. congruence.
Qed.

Lemma jsonp_url_key p o method l k (h : heap) :
  l ∈ dom h → k ≠ "method" → k ≠ "jsonp" →
  heap_get l k (snd (jsonp_url stringify p o method h)) = heap_get l k h.
Proof.
  intros Hl Hm Hj. unfold jsonp_url.
  set (lit := [("jsonp", VStr "callback"); ("method", VStr method)]).
  pose proof (alloc_fresh lit h) as Hf.
  pose proof (alloc_new lit h) as Hnew.
  pose proof (λ l, alloc_frame lit l h) as Hfr.
  destruct (alloc lit h) as [q h0]; simpl in *.
  unfold _extend. rewrite extend_keys_key.
  - unfold heap_get. rewrite Hfr; [reflexivity|].
    intros Heq. rewrite Heq in Hl. contradiction.
  - rewrite has_key_rev, Hnew. unfold has_key; simpl.
    apply String.eqb_neq in Hm, Hj. now rewrite Hm, Hj.
Qed.

Lemma request_returned this path params fields method h r :
  request stringify this path params fields method h = Returned r →
  ∃ p o h3 h4,
    prepare this path params fields method h = (p, o, h3) ∧
    place_params this o (stringify (heap_obj h3 p)) h3 = Some h4 ∧
    out_params r = p ∧ out_options r = o ∧
    out_paramsQS r = stringify (heap_obj h3 p) ∧
    (isBrowser this = true →
     out_heap r = snd (jsonp_url stringify p o method h4) ∧
     out_issued r = LoadScript (fst (jsonp_url stringify p o method h4))) ∧
    (isBrowser this = false →
     out_heap r = h4 ∧
     out_issued r
     = HttpRequest o
         (if truthy (VStr (stringify (heap_obj h3 p)))
             && requestHasData (heap_get o "method" h4)
          then Some (stringify (heap_obj h3 p)) else None)).
Proof.
  unfold request.
  destruct (prepare this path params fields method h) as [[p o] h3].
  destruct (place_params this o _ h3) as [h4|] eqn:Hpl; [|discriminate].
  destruct (isBrowser this).
  - destruct (jsonp_url stringify p o method h4) as [url h5] eqn:Hu.
    intros [= <-]. exists p, o, h3, h4. rewrite Hu. simpl.
    repeat split; done.
  - intros [= <-]. exists p, o, h3, h4. simpl.
    repeat split; done.
Qed.

(** The heap a returned call leaves agrees with the heap after placement on
    every key but the two that JSONP adds. *)
Lemma request_heap_key this p o method l k (h4 : heap) r :
  (isBrowser this = true → out_heap r = snd (jsonp_url stringify p o method h4)) →
  (isBrowser this = false → out_heap r = h4) →
  l ∈ dom h4 → k ≠ "method" → k ≠ "jsonp" →
  heap_get l k (out_heap r) = heap_get l k h4.
Proof.
  intros Hb Hs Hl Hm Hj. destruct (isBrowser this).
  - rewrite Hb by reflexivity. now apply jsonp_url_key.
  - now rewrite Hs.
Qed.

End RequestFacts.

(** * The request as a whole *)

Lemma normalize_nonempty fields :
  nonempty_fields fields →
  negb (length (normalize_fields fields) =? 0)%nat = true ∧
  join (normalize_fields fields) = comma_joined fields.
Proof.
  destruct fields as [|f|fs]; simpl; [contradiction| |].
  - intros Hf. destruct (String.eqb_spec f EmptyString); [contradiction|].
    simpl. split; reflexivity.
  - intros Hfs. destruct fs; [contradiction|]. split; reflexivity.
Qed.

Lemma joined_path_exists this path (h h3 : heap) o :
  (begins_with_slash path →
   heap_get o "path" h3
   = VStr (to_string (heap_get (httpOptions this) "path" h) +:+ path)) ∧
  ((¬ begins_with_slash path) →
   heap_get o "path" h3
   = VStr (to_string (heap_get (httpOptions this) "path" h) +:+ "/" +:+ path)) ∧
  heap_get o "headers" h3 = heap_get (httpOptions this) "headers" h →
  ∃ joined, heap_get o "path" h3 = VStr joined ∧ is_joined_path this path h joined.
Proof.
  intros (Hsl & Hnsl & _). unfold is_joined_path.
  destruct (indexOf "/" path =? 0)%Z eqn:Hidx.
  - apply indexOf_slash in Hidx. eexists. split; [exact (Hsl Hidx)|].
    split; [reflexivity | contradiction].
  - assert (¬ begins_with_slash path) as Hn
      by (intros Hx%indexOf_slash; congruence).
    eexists. split; [exact (Hnsl Hn)|]. split; [contradiction | reflexivity].
Qed.

(** C1, as the code has it: what is serialized is the caller's object (or a
    new one) after every entry of [this.httpParams] was assigned on it, so on
    a shared key the instance's value wins; ["fields"], when given, is set
    last. *)
Theorem request_serializes_merged_params stringify this path params fields method h r :
  live_call this params h →
  request stringify this path params fields method h = Returned r →
  ∃ merged, out_paramsQS r = stringify merged ∧
    ∀ k, obj_get k merged = serialized_param this params fields h k.
Proof.
  intros Hwf (p & o & h3 & h4 & Hprep & _ & _ & _ & Hqs & _)%request_returned.
  apply prepare_spec in Hprep as (_ & _ & _ & Hget & _); [|exact Hwf].
  exists (heap_obj h3 p). split; [exact Hqs|]. intros k. apply Hget.
Qed.

(** C4: the path of the request, before any query string, is the base path
    and [path] put together directly when [path] begins with a slash, and
    with one slash between them otherwise. *)
Theorem request_path_before_query stringify this path params fields method h r :
  live_call this params h →
  params ≠ Some (httpOptions this) →
  request stringify this path params fields method h = Returned r →
  ∃ joined,
    (heap_get (out_options r) "path" (out_heap r) = VStr joined ∨
     heap_get (out_options r) "path" (out_heap r)
     = VStr (joined +:+ "?" +:+ out_paramsQS r)) ∧
    (begins_with_slash path →
     joined = to_string (heap_get (httpOptions this) "path" h) +:+ path) ∧
    ((¬ begins_with_slash path) →
     joined = to_string (heap_get (httpOptions this) "path" h) +:+ "/" +:+ path).
Proof.
  intros Hwf Halias
    (p & o & h3 & h4 & Hprep & Hpl & Hp & Ho & Hqs & Hb & Hs)%request_returned.
  apply prepare_spec in Hprep as (_ & _ & Ho3 & _ & _ & Hj); [|exact Hwf].
  destruct (joined_path_exists _ _ _ _ _ (Hj Halias)) as (joined & Hj' & Hj1 & Hj2).
  assert (Hfinal : heap_get o "path" (out_heap r) = heap_get o "path" h4).
  { eapply request_heap_key; [intros Hbr; apply (proj1 (Hb Hbr))
                             |intros Hbr; apply (proj1 (Hs Hbr))| |discriminate..].
    eapply place_params_dom; eassumption. }
  exists joined. split; [|split; assumption].
  rewrite Ho, Hfinal, (place_params_path _ _ _ _ _ Hpl), Hj', Hqs. simpl to_string.
  destruct (_ && _ && _); auto.
Qed.

Lemma place_params_headers_live this o qs hl (h h' : heap) :
  heap_get o "headers" h = VRef hl →
  place_params this o qs h = Some h' →
  qs ≠ EmptyString → requestHasData (heap_get o "method" h) = true →
  hl ∈ dom h'.
Proof.
  intros Hh Hp Hq%truthy_str Hd. unfold place_params in Hp.
  rewrite Hq, Hd, Hh in Hp. simpl in Hp.
  rewrite heap_get_set_key, Hh in Hp by discriminate. simpl in Hp.
  injection Hp as <-. rewrite !dom_heap_set. set_solver.
Qed.

(** C5, as the code has it: with a [headers] object the call returns; when
    the serialized string is not empty, POST and DELETE set the two headers
    and, in the server context, write the string as the body; GET and PUT in
    the server context put it on the path after a question mark and write no
    body; in the browser no method makes an HTTP request, with or without a
    body: a script is loaded. *)
Theorem request_places_serialized_params
    stringify this path params fields method h hl :
  live_call this params h →
  params ≠ Some (httpOptions this) →
  heap_get (httpOptions this) "headers" h = VRef hl →
  ∃ r, request stringify this path params fields method h = Returned r ∧
    (out_paramsQS r ≠ EmptyString →
     ((method = Methods.POST ∨ method = Methods.DELETE) →
      heap_get hl "Content-Type" (out_heap r)
      = VStr "application/x-www-form-urlencoded" ∧
      heap_get hl "Content-Length" (out_heap r)
      = VNum (Z.of_nat (String.length (out_paramsQS r))) ∧
      (isBrowser this = false →
       out_issued r = HttpRequest (out_options r) (Some (out_paramsQS r)))) ∧
     ((method = Methods.GET ∨ method = Methods.PUT) → isBrowser this = false →
      (∃ joined, is_joined_path this path h joined ∧
         heap_get (out_options r) "path" (out_heap r)
         = VStr (joined +:+ "?" +:+ out_paramsQS r)) ∧
      out_issued r = HttpRequest (out_options r) None)) ∧
    (isBrowser this = true →
     (∃ url, out_issued r = LoadScript url) ∧
     ∀ options body, out_issued r ≠ HttpRequest options body).
Proof.
  intros Hwf Halias Hhl.
  destruct (prepare this path params fields method h) as [[p o] h3] eqn:Hprep.
  pose proof Hprep as Hspec.
  apply prepare_spec in Hspec as (_ & _ & Ho3 & _ & Hm3 & Hj); [|exact Hwf].
  specialize (Hj Halias).
  pose proof Hj as (_ & _ & Hh3). rewrite Hhl in Hh3.
  apply joined_path_exists in Hj as (joined & Hj & Hjoined).
  destruct (place_params_headers this o (stringify (heap_obj h3 p)) hl h3 Hh3)
    as (h4 & Hpl & Hhead).
  assert (∃ r, request stringify this path params fields method h = Returned r)
    as [r Hr].
  { unfold request. rewrite Hprep, Hpl. destruct (isBrowser this); [|eauto].
    destruct (jsonp_url stringify p o method h4). eauto. }
  exists r. split; [exact Hr|].
  apply request_returned in Hr
    as (p' & o' & h3' & h4' & Hprep' & Hpl' & Hp & Ho & Hqs & Hb & Hs).
  rewrite Hprep in Hprep'. injection Hprep' as <- <- <-.
  rewrite Hpl in Hpl'. injection Hpl' as <-.
  rewrite Hqs, Ho. split;
    [|intros Hbr; destruct (Hb Hbr) as [_ Hiss]; rewrite Hiss;
      split; [eauto | discriminate]].
  intros Hne.
  assert (Hm4 : heap_get o "method" h4 = VStr method).
  { rewrite (place_params_key _ _ _ _ _ _ _ Hpl) by discriminate. exact Hm3. }
  split.
  - intros Hmeth.
    assert (Hd : requestHasData (VStr method) = true)
      by (destruct Hmeth as [-> | ->]; reflexivity).
    rewrite Hm3 in Hhead. destruct (Hhead Hne Hd) as [Hct Hcl].
    assert (Hlive : hl ∈ dom h4).
    { eapply place_params_headers_live; try eassumption. now rewrite Hm3. }
    split; [|split].
    + rewrite <- Hct. eapply request_heap_key;
        [intros Hbr; apply (proj1 (Hb Hbr)) | intros Hbr; apply (proj1 (Hs Hbr))
        | exact Hlive | discriminate..].
    + rewrite <- Hcl. eapply request_heap_key;
        [intros Hbr; apply (proj1 (Hb Hbr)) | intros Hbr; apply (proj1 (Hs Hbr))
        | exact Hlive | discriminate..].
    + intros Hbr. destruct (Hs Hbr) as [_ ->]. rewrite Hm4, Hd.
      apply truthy_str in Hne. now rewrite Hne.
  - intros Hmeth Hbr.
    assert (Hd : requestHasData (VStr method) = false)
      by (destruct Hmeth as [-> | ->]; reflexivity).
    destruct (Hs Hbr) as [-> ->]. rewrite Hm4, Hd, andb_false_r.
    split; [|reflexivity]. exists joined. split; [exact Hjoined|].
    rewrite (place_params_path _ _ _ _ _ Hpl), Hm3, Hd, Hbr, Hj.
    apply truthy_str in Hne. now rewrite Hne.
Qed.

(** C6: a [fields] argument that names a field puts the names, joined by
    commas in their order, under ["fields"] of the parameters that are
    serialized; a bare string goes there as it is. *)
Theorem request_sets_fields stringify this path params fields method h r :
  live_call this params h →
  nonempty_fields fields →
  request stringify this path params fields method h = Returned r →
  (∃ merged, out_paramsQS r = stringify merged ∧
     obj_get "fields" merged = VStr (comma_joined fields)) ∧
  heap_get (out_params r) "fields" (out_heap r) = VStr (comma_joined fields).
Proof.
  intros Hwf [Hlen Hjoin]%normalize_nonempty
    (p & o & h3 & h4 & Hprep & Hpl & Hp & Ho & Hqs & Hb & Hs)%request_returned.
  apply prepare_spec in Hprep as (_ & Hp3 & _ & Hget & _); [|exact Hwf].
  assert (Hf : heap_get p "fields" h3 = VStr (comma_joined fields)).
  { rewrite Hget. unfold serialized_param. rewrite Hlen, Hjoin. reflexivity. }
  split.
  - exists (heap_obj h3 p). split; [exact Hqs | exact Hf].
  - rewrite Hp, <- Hf, <- (place_params_key _ _ _ p "fields" _ _ Hpl) by discriminate.
    eapply request_heap_key;
      [intros Hbr; apply (proj1 (Hb Hbr)) | intros Hbr; apply (proj1 (Hs Hbr))
      | | discriminate..].
    eapply place_params_dom; eassumption.
Qed.

(** * The promise *)

Lemma request_issued stringify this path params fields method h r :
  request stringify this path params fields method h = Returned r →
  if isBrowser this
  then ∃ url, out_issued r = LoadScript url
  else ∃ body, out_issued r = HttpRequest (out_options r) body.
Proof.
  intros (p & o & h3 & h4 & _ & _ & _ & Ho & _ & Hb & Hs)%request_returned.
  destruct (isBrowser this).
  - destruct (Hb eq_refl) as [_ ->]. eauto.
  - destruct (Hs eq_refl) as [_ ->]. rewrite Ho. eauto.
Qed.

Lemma resolve_settled v p : p ≠ Pending → resolve v p = p.
Proof. destruct p; [contradiction|reflexivity..]. Qed.

Lemma reject_settled v p : p ≠ Pending → reject v p = p.
Proof. destruct p; [contradiction|reflexivity..]. Qed.

Section DispatchFacts.

Variable JSON_parse : string -> option jsval.

Lemma on_end_settled text p : p ≠ Pending → on_end JSON_parse text p = p.
Proof.
  intros Hp. unfold on_end.
  destruct (JSON_parse text) as [data|]; [|now apply reject_settled].
  destruct (member data "error") as [e|]; [|reflexivity].
  destruct (jtruthy e); [now apply reject_settled|].
  destruct (member data "data"); [now apply resolve_settled | reflexivity].
Qed.

Lemma on_callback_settled d p : p ≠ Pending → on_callback d p = p.
Proof.
  intros Hp. unfold on_callback.
  destruct (member d "error") as [e|]; [|reflexivity].
  destruct (jtruthy e); [now apply reject_settled|].
  destruct (member d "data"); [now apply resolve_settled | reflexivity].
Qed.

(** A settled promise stays as it is, whatever the outside does. *)
Lemma server_settled evs c :
  settled c ≠ Pending →
  settled (fold_left (server_step JSON_parse) evs c) = settled c.
Proof.
  revert c. induction evs as [|ev evs IH]; intros c Hc; [reflexivity|].
  simpl. assert (Hstep : settled (server_step JSON_parse c ev) = settled c).
  { destruct ev; simpl; try reflexivity.
    - destruct (body c); simpl; [now apply on_end_settled | reflexivity].
    - now apply reject_settled. }
  rewrite IH; [exact Hstep | now rewrite Hstep].
Qed.

Lemma browser_settled evs c :
  settled c ≠ Pending →
  settled (fold_left browser_step evs c) = settled c.
Proof.
  revert c. induction evs as [|ev evs IH]; intros c Hc; [reflexivity|].
  simpl. assert (Hstep : settled (browser_step c ev) = settled c).
  { destruct ev; simpl; try reflexivity. now apply on_callback_settled. }
  rewrite IH; [exact Hstep | now rewrite Hstep].
Qed.

(** The chunks of a response add up in [body] and leave the promise alone. *)
Lemma server_chunks chunks p text :
  fold_left (server_step JSON_parse) (map EvData chunks)
    {| settled := p; body := Some text |}
  = {| settled := p; body := Some (fold_left String.append chunks text) |}.
Proof.
  revert text. induction chunks as [|c chunks IH]; intros text; [reflexivity|].
  simpl. apply IH.
Qed.

(** A whole response, then anything: the promise is what the ['end'] listener
    made of the accumulated text, once and for all. *)
Lemma server_response chunks post :
  on_end JSON_parse (accumulated chunks) Pending ≠ Pending →
  settled (fold_left (server_step JSON_parse)
             (EvResponse :: map EvData chunks ++ EvEnd :: post) initial)
  = on_end JSON_parse (accumulated chunks) Pending.
Proof.
  intros Hs. simpl. rewrite fold_left_app, server_chunks. simpl.
  now rewrite server_settled.
Qed.

End DispatchFacts.

Lemma live_call_decide this params (h : heap) :
  bool_decide (httpOptions this ∈ dom h)
  && match params with
     | Some p => bool_decide (p ∈ dom h)
     | None => true
     end = true →
  live_call this params h.
Proof.
  intros [H1 H2]%andb_prop. split; [now apply bool_decide_eq_true in H1|].
  intros p ->. now apply bool_decide_eq_true in H2.
Qed.

Section Settle.
Variable stringify : obj -> string.
Variable JSON_parse : string -> option jsval.

Lemma settle_server this path params fields method h r evs :
  isBrowser this = false →
  request stringify this path params fields method h = Returned r →
  settle JSON_parse r evs
  = settled (fold_left (server_step JSON_parse) evs initial).
Proof.
  intros Hb Hr%request_issued. rewrite Hb in Hr. destruct Hr as [b Hr].
  unfold settle. now rewrite Hr.
Qed.

Lemma settle_browser this path params fields method h r evs :
  isBrowser this = true →
  request stringify this path params fields method h = Returned r →
  settle JSON_parse r evs = settled (fold_left browser_step evs initial).
Proof.
  intros Hb Hr%request_issued. rewrite Hb in Hr. destruct Hr as [b Hr].
  unfold settle. now rewrite Hr.
Qed.

Lemma settle_settled r pre post :
  settle JSON_parse r pre ≠ Pending →
  settle JSON_parse r (pre ++ post) = settle JSON_parse r pre.
Proof.
  unfold settle. destruct (out_issued r); rewrite fold_left_app; intros Hs.
  - now apply server_settled.
  - now apply browser_settled.
Qed.

(** What a whole response makes of the promise, by what the ['end']
    listener makes of the text. *)
Lemma settle_response this path params fields method h r chunks post p :
  isBrowser this = false →
  request stringify this path params fields method h = Returned r →
  on_end JSON_parse (accumulated chunks) Pending = p → p ≠ Pending →
  settle JSON_parse r (EvResponse :: map EvData chunks ++ EvEnd :: post) = p.
Proof.
  intros Hb Hr Hend Hp. rewrite (settle_server _ _ _ _ _ _ _ _ Hb Hr).
  rewrite server_response; rewrite Hend; [reflexivity | exact Hp].
Qed.

(** C7: in the server context a response whose accumulated body is no JSON
    rejects the promise with that very text, a string, whatever follows. *)
Theorem parse_failure_rejects_with_body
    this path params fields method h r chunks post :
  isBrowser this = false →
  request stringify this path params fields method h = Returned r →
  JSON_parse (accumulated chunks) = None →
  settle JSON_parse r (EvResponse :: map EvData chunks ++ EvEnd :: post)
  = Rejected (JStr (accumulated chunks)).
Proof.
  intros Hb Hr Hparse. eapply settle_response; [eassumption.. | | discriminate].
  unfold on_end. now rewrite Hparse.
Qed.

(** C9: in the server context a body that parses to an envelope without a
    truthy [error] resolves the promise with the envelope's [data]. *)
Theorem data_envelope_resolves
    this path params fields method h r chunks post ms :
  isBrowser this = false →
  request stringify this path params fields method h = Returned r →
  JSON_parse (accumulated chunks) = Some (JObj ms) →
  jtruthy (members_get "error" ms) = false →
  settle JSON_parse r (EvResponse :: map EvData chunks ++ EvEnd :: post)
  = Resolved (members_get "data" ms).
Proof.
  intros Hb Hr Hparse He. eapply settle_response; [eassumption.. | | discriminate].
  unfold on_end. rewrite Hparse. simpl. now rewrite He.
Qed.

(** C10: an envelope whose [error] is falsy (the empty string, 0 and [null]
    are) counts as a success in both branches: the promise resolves with its
    [data], [undefined] when there is none. *)
Theorem falsy_error_resolves
    this path params fields method h r chunks post ms :
  request stringify this path params fields method h = Returned r →
  jtruthy (members_get "error" ms) = false →
  (isBrowser this = false →
   JSON_parse (accumulated chunks) = Some (JObj ms) →
   settle JSON_parse r (EvResponse :: map EvData chunks ++ EvEnd :: post)
   = Resolved (members_get "data" ms)) ∧
  (isBrowser this = true →
   settle JSON_parse r (EvCallback (JObj ms) :: post)
   = Resolved (members_get "data" ms)) ∧
  jtruthy (JStr EmptyString) = false ∧ jtruthy (JNum 0) = false ∧
  jtruthy JNull = false.
Proof.
  intros Hr He. split; [|split; [|repeat split]].
  - intros Hb Hparse.
    eapply settle_response; [eassumption.. | | discriminate].
    unfold on_end. rewrite Hparse. simpl. now rewrite He.
  - intros Hb. rewrite (settle_browser _ _ _ _ _ _ _ _ Hb Hr). simpl.
    rewrite browser_settled; simpl; unfold on_callback; simpl; rewrite He;
      [reflexivity | discriminate].
Qed.

(** C2, as the code has it: the server branch rejects with the parsed
    envelope, the JSONP branch with the value of its [error]. *)
Theorem error_envelope_rejects
    this path params fields method h r chunks post :
  request stringify this path params fields method h = Returned r →
  (isBrowser this = false →
   JSON_parse (accumulated chunks) = Some (JObj [("error", JStr "not found")]) →
   settle JSON_parse r (EvResponse :: map EvData chunks ++ EvEnd :: post)
   = Rejected (JObj [("error", JStr "not found")])) ∧
  (isBrowser this = true →
   settle JSON_parse r (EvCallback (JObj [("error", JStr "not found")]) :: post)
   = Rejected (JStr "not found")).
Proof.
  intros Hr. split.
  - intros Hb Hparse.
    eapply settle_response; [eassumption.. | | discriminate].
    unfold on_end. now rewrite Hparse.
  - intros Hb. rewrite (settle_browser _ _ _ _ _ _ _ _ Hb Hr). simpl.
    now rewrite browser_settled.
Qed.

(** Nothing but the callback reaches the promise of the browser. *)
Lemma browser_step_ignores c ev :
  (∀ jsonpData, ev ≠ EvCallback jsonpData) → browser_step c ev = c.
Proof.
  intros Hev. destruct ev; try reflexivity. exfalso. now apply (Hev jsonpData).
Qed.

Lemma browser_ignores_all evs c :
  Forall (λ ev, ∀ jsonpData, ev ≠ EvCallback jsonpData) evs →
  fold_left browser_step evs c = c.
Proof.
  intros Hevs. revert c.
  induction Hevs as [|ev evs Hev _ IH]; intros c; [reflexivity|].
  simpl. rewrite (browser_step_ignores _ _ Hev). apply IH.
Qed.

(** C8, as the code has it: in the server context a transport error that
    finds the promise pending rejects it with the error object, a body that is
    no JSON with the text, an envelope with a truthy [error] with the
    envelope; in the browser an envelope with a truthy [error] rejects with
    that value; a settled promise is never settled again; and in the browser
    a transport error changes nothing wherever it falls: as long as no
    callback comes the promise is pending. *)
Theorem failures_reject_once this path params fields method h r :
  request stringify this path params fields method h = Returned r →
  (isBrowser this = false →
   (∀ pre e post,
      settle JSON_parse r pre = Pending →
      settle JSON_parse r (pre ++ EvError e :: post) = Rejected e) ∧
   (∀ chunks post,
      JSON_parse (accumulated chunks) = None →
      settle JSON_parse r (EvResponse :: map EvData chunks ++ EvEnd :: post)
      = Rejected (JStr (accumulated chunks))) ∧
   (∀ chunks post data e,
      JSON_parse (accumulated chunks) = Some data →
      member data "error" = Some e → jtruthy e = true →
      settle JSON_parse r (EvResponse :: map EvData chunks ++ EvEnd :: post)
      = Rejected data)) ∧
  (isBrowser this = true →
   ∀ pre jsonpData e post,
     settle JSON_parse r pre = Pending →
     member jsonpData "error" = Some e → jtruthy e = true →
     settle JSON_parse r (pre ++ EvCallback jsonpData :: post) = Rejected e) ∧
  (∀ pre post,
     settle JSON_parse r pre ≠ Pending →
     settle JSON_parse r (pre ++ post) = settle JSON_parse r pre) ∧
  (isBrowser this = true →
   (∀ pre e post,
      settle JSON_parse r (pre ++ EvError e :: post)
      = settle JSON_parse r (pre ++ post)) ∧
   (∀ evs,
      Forall (λ ev, ∀ jsonpData, ev ≠ EvCallback jsonpData) evs →
      settle JSON_parse r evs = Pending)).
Proof.
  intros Hr. split; [|split; [|split]].
  - intros Hb. split; [|split].
    + intros pre e post. rewrite !(settle_server _ _ _ _ _ _ _ _ Hb Hr).
      rewrite fold_left_app. simpl. intros Hp.
      rewrite server_settled; simpl; rewrite Hp; [reflexivity | discriminate].
    + intros chunks post Hparse.
      eapply settle_response; [eassumption.. | | discriminate].
      unfold on_end. now rewrite Hparse.
    + intros chunks post data e Hparse Hm He.
      eapply settle_response; [eassumption.. | | discriminate].
      unfold on_end. now rewrite Hparse, Hm, He.
  - intros Hb pre d e post. rewrite !(settle_browser _ _ _ _ _ _ _ _ Hb Hr).
    rewrite fold_left_app. simpl. intros Hp Hm He.
    rewrite browser_settled; simpl; rewrite Hp; unfold on_callback;
      rewrite Hm, He; [reflexivity | discriminate].
  - intros pre post. apply settle_settled.
  - intros Hb. split.
    + intros pre e post. rewrite !(settle_browser _ _ _ _ _ _ _ _ Hb Hr).
      now rewrite !fold_left_app.
    + intros evs Hevs. rewrite (settle_browser _ _ _ _ _ _ _ _ Hb Hr).
      now rewrite browser_ignores_all.
Qed.

End Settle.

(** * The claims on the sample instance *)

(** C1 fails as stated: the caller passes [a = "1"], the instance holds
    [a = "2"], and ["2"] is what goes out, where the spec's merge has ["1"]. *)
Lemma defaults_override_explicit_params :
  ∃ r,
    request QueryString.stringify Sample.server "task/search" (Some 3)
      FieldsNone Methods.GET Sample.store = Returned r ∧
    caller_param (Some 3) "a" Sample.store = VStr "1" ∧
    obj_get "a" (defaults Sample.server Sample.store) = VStr "2" ∧
    obj_get "a" (spec_merge (defaults Sample.server Sample.store)
                            (heap_obj Sample.store 3)) = VStr "1" ∧
    heap_get (out_params r) "a" (out_heap r) = VStr "2" ∧
    out_paramsQS r = "a=2&b=x&sessionID=s" ∧
    out_paramsQS r
    ≠ QueryString.stringify (spec_merge (defaults Sample.server Sample.store)
                                        (heap_obj Sample.store 3)).
Proof.
  eexists. split; [vm_compute; reflexivity|].
  vm_compute. repeat split. discriminate.
Qed.

Lemma request_serializes_merged_params_witness :
  live_call Sample.server (Some 3) Sample.store ∧
  ∃ r,
    request QueryString.stringify Sample.server "task/search" (Some 3)
      (FieldsArr ["name"; "ID"]) Methods.GET Sample.store = Returned r ∧
    ∃ merged, out_paramsQS r = QueryString.stringify merged ∧
      ∀ k, obj_get k merged
           = serialized_param Sample.server (Some 3) (FieldsArr ["name"; "ID"])
               Sample.store k.
Proof.
  assert (Hlive : live_call Sample.server (Some 3) Sample.store)
    by (apply live_call_decide; vm_compute; reflexivity).
  split; [exact Hlive|].
  destruct (request QueryString.stringify Sample.server "task/search" (Some 3)
              (FieldsArr ["name"; "ID"]) Methods.GET Sample.store)
    as [r|h'] eqn:E.
  - exists r. split; [reflexivity|].
    exact (request_serializes_merged_params QueryString.stringify Sample.server
             "task/search" (Some 3) (FieldsArr ["name"; "ID"]) Methods.GET
             Sample.store r Hlive E).
  - vm_compute in E. discriminate E.
Defined.

(** C3 fails on the code: a POST leaves its two headers on the [headers]
    object of [this.httpOptions], which [options] shares. *)
Lemma request_writes_shared_headers :
  heap_get (httpOptions Sample.server) "headers" Sample.store = VRef 1 ∧
  heap_obj Sample.store 1 = [] ∧
  ∃ r,
    request QueryString.stringify Sample.server "task" (Some 3) FieldsNone
      Methods.POST Sample.store = Returned r ∧
    heap_get (httpOptions Sample.server) "headers" (out_heap r) = VRef 1 ∧
    heap_obj (out_heap r) 1
    = [("Content-Type", VStr "application/x-www-form-urlencoded");
       ("Content-Length", VNum 19)].
Proof.
  split; [vm_compute; reflexivity|]. split; [vm_compute; reflexivity|].
  eexists. split; [vm_compute; reflexivity|]. vm_compute. split; reflexivity.
Qed.

Lemma request_path_before_query_witness :
  live_call Sample.server None Sample.store ∧
  None ≠ Some (httpOptions Sample.server) ∧
  ∃ r,
    request QueryString.stringify Sample.server "task/search" None
      (FieldsStr "name") Methods.GET Sample.store = Returned r ∧
    heap_get (out_options r) "path" (out_heap r)
    = VStr "/attask/api/task/search?sessionID=s&a=2&fields=name" ∧
    ∃ joined,
      (heap_get (out_options r) "path" (out_heap r) = VStr joined ∨
       heap_get (out_options r) "path" (out_heap r)
       = VStr (joined +:+ "?" +:+ out_paramsQS r)) ∧
      (begins_with_slash "task/search" →
       joined = to_string (heap_get (httpOptions Sample.server) "path" Sample.store)
                +:+ "task/search") ∧
      ((¬ begins_with_slash "task/search") →
       joined = to_string (heap_get (httpOptions Sample.server) "path" Sample.store)
                +:+ "/" +:+ "task/search").
Proof.
  assert (Hlive : live_call Sample.server None Sample.store)
    by (apply live_call_decide; vm_compute; reflexivity).
  split; [exact Hlive|]. split; [discriminate|].
  destruct (request QueryString.stringify Sample.server "task/search" None
              (FieldsStr "name") Methods.GET Sample.store) as [r|h'] eqn:E.
  - exists r. split; [reflexivity|]. split.
    + vm_compute in E. injection E as <-. vm_compute. reflexivity.
    + apply (request_path_before_query QueryString.stringify Sample.server
               "task/search" None (FieldsStr "name") Methods.GET Sample.store r
               Hlive); [discriminate | exact E].
  - vm_compute in E. discriminate E.
Defined.

(** C5 fails as stated: in the browser a POST writes no body; the parameters
    leave in the URL of a script. *)
Lemma browser_post_writes_no_body :
  ∃ r url,
    request QueryString.stringify Sample.browser "task" (Some 3) FieldsNone
      Methods.POST Sample.store = Returned r ∧
    out_paramsQS r = "a=2&b=x&sessionID=s" ∧
    out_issued r = LoadScript url ∧
    ∀ body, out_issued r ≠ HttpRequest (out_options r) body.
Proof.
  eexists. eexists. split; [vm_compute; reflexivity|].
  split; [vm_compute; reflexivity|]. split; [vm_compute; reflexivity|].
  intros body. vm_compute. discriminate.
Qed.

Lemma request_places_serialized_params_witness :
  live_call Sample.server (Some 3) Sample.store ∧
  Some 3 ≠ Some (httpOptions Sample.server) ∧
  heap_get (httpOptions Sample.server) "headers" Sample.store = VRef 1 ∧
  (∃ r,
     request QueryString.stringify Sample.server "task" (Some 3) FieldsNone
       Methods.POST Sample.store = Returned r ∧
     heap_get 1 "Content-Type" (out_heap r)
     = VStr "application/x-www-form-urlencoded" ∧
     heap_get 1 "Content-Length" (out_heap r)
     = VNum (Z.of_nat (String.length (out_paramsQS r))) ∧
     out_issued r = HttpRequest (out_options r) (Some (out_paramsQS r))) ∧
  (∃ r url,
     request QueryString.stringify Sample.browser "task" (Some 3) FieldsNone
       Methods.DELETE Sample.store = Returned r ∧
     out_issued r = LoadScript url).
Proof.
  assert (Hlive : live_call Sample.server (Some 3) Sample.store)
    by (apply live_call_decide; vm_compute; reflexivity).
  assert (Halias : Some 3 ≠ Some (httpOptions Sample.server)) by discriminate.
  assert (Hhead : heap_get (httpOptions Sample.server) "headers" Sample.store = VRef 1)
    by (vm_compute; reflexivity).
  split; [exact Hlive|]. split; [exact Halias|]. split; [exact Hhead|]. split.
  - destruct (request_places_serialized_params QueryString.stringify
                Sample.server "task" (Some 3) FieldsNone Methods.POST
                Sample.store 1 Hlive Halias Hhead) as (r & Hr & Hplaced & _).
    exists r. split; [exact Hr|].
    assert (Hne : out_paramsQS r ≠ EmptyString).
    { vm_compute in Hr. injection Hr as <-. vm_compute. discriminate. }
    destruct (Hplaced Hne) as [Hbody _].
    destruct (Hbody (or_introl eq_refl)) as (Hct & Hcl & Hreq).
    split; [exact Hct|]. split; [exact Hcl|]. now apply Hreq.
  - destruct (request_places_serialized_params QueryString.stringify
                Sample.browser "task" (Some 3) FieldsNone Methods.DELETE
                Sample.store 1 Hlive Halias Hhead) as (r & Hr & _ & Hbrowser).
    destruct (Hbrowser eq_refl) as [[url Hurl] _].
    exists r, url. split; [exact Hr | exact Hurl].
Defined.

Lemma request_sets_fields_witness :
  live_call Sample.server (Some 3) Sample.store ∧
  nonempty_fields (FieldsArr ["name"; "ID"]) ∧
  ∃ r,
    request QueryString.stringify Sample.server "task/search" (Some 3)
      (FieldsArr ["name"; "ID"]) Methods.GET Sample.store = Returned r ∧
    (∃ merged, out_paramsQS r = QueryString.stringify merged ∧
       obj_get "fields" merged = VStr "name,ID") ∧
    heap_get (out_params r) "fields" (out_heap r) = VStr "name,ID".
Proof.
  assert (Hlive : live_call Sample.server (Some 3) Sample.store)
    by (apply live_call_decide; vm_compute; reflexivity).
  assert (Hne : nonempty_fields (FieldsArr ["name"; "ID"])) by (simpl; discriminate).
  split; [exact Hlive|]. split; [exact Hne|].
  destruct (request QueryString.stringify Sample.server "task/search" (Some 3)
              (FieldsArr ["name"; "ID"]) Methods.GET Sample.store)
    as [r|h'] eqn:E.
  - exists r. split; [reflexivity|].
    exact (request_sets_fields QueryString.stringify Sample.server "task/search"
             (Some 3) (FieldsArr ["name"; "ID"]) Methods.GET Sample.store r
             Hlive Hne E).
  - vm_compute in E. discriminate E.
Defined.

(** C2 fails as stated: in the server context the body
    [{"error":"not found"}] rejects with the parsed envelope, an object. *)
Lemma server_rejects_with_envelope :
  ∃ r,
    request QueryString.stringify Sample.server "task/search" None FieldsNone
      Methods.GET Sample.store = Returned r ∧
    JSON.parse Sample.body_error = Some (JObj [("error", JStr "not found")]) ∧
    settle JSON.parse r [EvResponse; EvData Sample.body_error; EvEnd]
    = Rejected (JObj [("error", JStr "not found")]) ∧
    settle JSON.parse r [EvResponse; EvData Sample.body_error; EvEnd]
    ≠ Rejected (JStr "not found").
Proof.
  eexists. split; [vm_compute; reflexivity|].
  split; [vm_compute; reflexivity|]. split; [vm_compute; reflexivity|].
  vm_compute. discriminate.
Qed.

Lemma error_envelope_rejects_witness :
  (∃ r,
     request QueryString.stringify Sample.server "task/search" None FieldsNone
       Methods.GET Sample.store = Returned r ∧
     settle JSON.parse r
       (EvResponse :: map EvData [Sample.body_error] ++ EvEnd :: [])
     = Rejected (JObj [("error", JStr "not found")])) ∧
  (∃ r,
     request QueryString.stringify Sample.browser "task/search" None FieldsNone
       Methods.GET Sample.store = Returned r ∧
     settle JSON.parse r (EvCallback (JObj [("error", JStr "not found")]) :: [])
     = Rejected (JStr "not found")).
Proof.
  split.
  - destruct (request QueryString.stringify Sample.server "task/search" None
                FieldsNone Methods.GET Sample.store) as [r|h'] eqn:E.
    + exists r. split; [reflexivity|].
      apply (error_envelope_rejects QueryString.stringify JSON.parse
               Sample.server "task/search" None FieldsNone Methods.GET
               Sample.store r [Sample.body_error] [] E);
        [reflexivity | vm_compute; reflexivity].
    + vm_compute in E. discriminate E.
  - destruct (request QueryString.stringify Sample.browser "task/search" None
                FieldsNone Methods.GET Sample.store) as [r|h'] eqn:E.
    + exists r. split; [reflexivity|].
      apply (error_envelope_rejects QueryString.stringify JSON.parse
               Sample.browser "task/search" None FieldsNone Methods.GET
               Sample.store r [] [] E). reflexivity.
    + vm_compute in E. discriminate E.
Defined.

Lemma parse_failure_rejects_with_body_witness :
  isBrowser Sample.server = false ∧
  JSON.parse (accumulated ["not-"; "json"]) = None ∧
  ∃ r,
    request QueryString.stringify Sample.server "task/search" None FieldsNone
      Methods.GET Sample.store = Returned r ∧
    settle JSON.parse r
      (EvResponse :: map EvData ["not-"; "json"]
       ++ EvEnd :: [EvError (JError "socket hang up")])
    = Rejected (JStr Sample.body_not_json).
Proof.
  assert (Hparse : JSON.parse (accumulated ["not-"; "json"]) = None)
    by (vm_compute; reflexivity).
  split; [reflexivity|]. split; [exact Hparse|].
  destruct (request QueryString.stringify Sample.server "task/search" None
              FieldsNone Methods.GET Sample.store) as [r|h'] eqn:E.
  - exists r. split; [reflexivity|].
    exact (parse_failure_rejects_with_body QueryString.stringify JSON.parse
             Sample.server "task/search" None FieldsNone Methods.GET
             Sample.store r ["not-"; "json"] [EvError (JError "socket hang up")]
             eq_refl E Hparse).
  - vm_compute in E. discriminate E.
Defined.

(** C8 fails as stated: in the browser nothing listens for a failure of the
    transport, and the promise stays pending. *)
Lemma browser_transport_error_stays_pending :
  ∃ r,
    request QueryString.stringify Sample.browser "task/search" None FieldsNone
      Methods.GET Sample.store = Returned r ∧
    settle JSON.parse r [EvError (JError "net::ERR_CONNECTION_REFUSED")]
    = Pending ∧
    settle JSON.parse r [EvError (JError "net::ERR_CONNECTION_REFUSED")]
    ≠ Rejected (JError "net::ERR_CONNECTION_REFUSED").
Proof.
  eexists. split; [vm_compute; reflexivity|].
  split; [vm_compute; reflexivity|]. vm_compute. discriminate.
Qed.

Lemma failures_reject_once_witness :
  (∃ r,
     request QueryString.stringify Sample.server "task/search" None FieldsNone
       Methods.GET Sample.store = Returned r ∧
     settle JSON.parse r [EvResponse; EvData "{"] = Pending ∧
     settle JSON.parse r
       ([EvResponse; EvData "{"] ++ EvError (JError "ECONNRESET") :: [EvEnd])
     = Rejected (JError "ECONNRESET")) ∧
  (∃ r,
     request QueryString.stringify Sample.browser "task/search" None FieldsNone
       Methods.GET Sample.store = Returned r ∧
     settle JSON.parse r [EvError (JError "timeout"); EvEnd] = Pending).
Proof.
  split; [|
    destruct (request QueryString.stringify Sample.browser "task/search" None
                FieldsNone Methods.GET Sample.store) as [r|h'] eqn:E;
      [|vm_compute in E; discriminate E];
    exists r; split; [reflexivity|];
    destruct (failures_reject_once QueryString.stringify JSON.parse
                Sample.browser "task/search" None FieldsNone Methods.GET
                Sample.store r E) as (_ & _ & _ & Hbrowser);
    apply (Hbrowser eq_refl);
    repeat constructor; discriminate].
  destruct (request QueryString.stringify Sample.server "task/search" None
              FieldsNone Methods.GET Sample.store) as [r|h'] eqn:E.
  - exists r. split; [reflexivity|].
    destruct (failures_reject_once QueryString.stringify JSON.parse
                Sample.server "task/search" None FieldsNone Methods.GET
                Sample.store r E) as (Hserver & _).
    destruct (Hserver eq_refl) as (Herror & _ & _).
    assert (Hp : settle JSON.parse r [EvResponse; EvData "{"] = Pending).
    { vm_compute in E. injection E as <-. vm_compute. reflexivity. }
    split; [exact Hp|]. now apply Herror.
  - vm_compute in E. discriminate E.
Defined.

Lemma data_envelope_resolves_witness :
  isBrowser Sample.server = false ∧
  JSON.parse (accumulated [Sample.body_data])
  = Some (JObj [("data", JObj [("id", JNum 1)])]) ∧
  jtruthy (members_get "error" [("data", JObj [("id", JNum 1)])]) = false ∧
  ∃ r,
    request QueryString.stringify Sample.server "task/search" None FieldsNone
      Methods.GET Sample.store = Returned r ∧
    settle JSON.parse r (EvResponse :: map EvData [Sample.body_data] ++ EvEnd :: [])
    = Resolved (JObj [("id", JNum 1)]).
Proof.
  assert (Hparse : JSON.parse (accumulated [Sample.body_data])
                   = Some (JObj [("data", JObj [("id", JNum 1)])]))
    by (vm_compute; reflexivity).
  split; [reflexivity|]. split; [exact Hparse|]. split; [reflexivity|].
  destruct (request QueryString.stringify Sample.server "task/search" None
              FieldsNone Methods.GET Sample.store) as [r|h'] eqn:E.
  - exists r. split; [reflexivity|].
    exact (data_envelope_resolves QueryString.stringify JSON.parse
             Sample.server "task/search" None FieldsNone Methods.GET
             Sample.store r [Sample.body_data] []
             [("data", JObj [("id", JNum 1)])] eq_refl E Hparse eq_refl).
  - vm_compute in E. discriminate E.
Defined.

Lemma falsy_error_resolves_witness :
  (∃ r,
     request QueryString.stringify Sample.server "task/search" None FieldsNone
       Methods.GET Sample.store = Returned r ∧
     JSON.parse (accumulated [Sample.body_falsy_error])
     = Some (JObj [("error", JNum 0); ("data", JStr "ok")]) ∧
     settle JSON.parse r
       (EvResponse :: map EvData [Sample.body_falsy_error] ++ EvEnd :: [])
     = Resolved (JStr "ok")) ∧
  (∃ r,
     request QueryString.stringify Sample.browser "task/search" None FieldsNone
       Methods.GET Sample.store = Returned r ∧
     settle JSON.parse r (EvCallback (JObj [("error", JNull)]) :: [])
     = Resolved JUndefined).
Proof.
  split.
  - destruct (request QueryString.stringify Sample.server "task/search" None
                FieldsNone Methods.GET Sample.store) as [r|h'] eqn:E.
    + exists r. split; [reflexivity|].
      assert (Hparse : JSON.parse (accumulated [Sample.body_falsy_error])
                       = Some (JObj [("error", JNum 0); ("data", JStr "ok")]))
        by (vm_compute; reflexivity).
      split; [exact Hparse|].
      destruct (falsy_error_resolves QueryString.stringify JSON.parse
                  Sample.server "task/search" None FieldsNone Methods.GET
                  Sample.store r [Sample.body_falsy_error] []
                  [("error", JNum 0); ("data", JStr "ok")] E eq_refl)
        as (Hserver & _).
      exact (Hserver eq_refl Hparse).
    + vm_compute in E. discriminate E.
  - destruct (request QueryString.stringify Sample.browser "task/search" None
                FieldsNone Methods.GET Sample.store) as [r|h'] eqn:E.
    + exists r. split; [reflexivity|].
      destruct (falsy_error_resolves QueryString.stringify JSON.parse
                  Sample.browser "task/search" None FieldsNone Methods.GET
                  Sample.store r [] [] [("error", JNull)] E eq_refl)
        as (_ & Hbrowser & _).
      exact (Hbrowser eq_refl).
    + vm_compute in E. discriminate E.
Defined.

(** * Further properties of the code *)

(** * What a call leaves alone *)

Lemma set_member_frame target k v l (h h' : heap) :
  set_member target k v h = Some h' → target ≠ VRef l →
  heap_obj h' l = heap_obj h l.
Proof.
  intros Hs Hl. destruct target; simpl in Hs; try discriminate;
    injection Hs as <-; try reflexivity.
  rewrite heap_obj_set, decide_False; [reflexivity | congruence].
Qed.

Lemma set_fields_frame p fs l (h : heap) :
  l ≠ p → heap_obj (set_fields p fs h) l = heap_obj h l.
Proof.
  intros Hl. unfold set_fields. destruct (negb _); [|reflexivity].
  now rewrite heap_obj_set, decide_False.
Qed.

Section Frames.

Variable stringify : obj -> string.

Lemma place_params_frame this o qs l (h h' : heap) :
  place_params this o qs h = Some h' →
  l ≠ o → heap_get o "headers" h ≠ VRef l →
  heap_obj h' l = heap_obj h l.
Proof.
  unfold place_params. intros Hp Hlo Hlh.
  destruct (truthy (VStr qs)); [|now injection Hp as <-].
  destruct (requestHasData _).
  - destruct (set_member _ "Content-Type" _ h) as [h1|] eqn:E1; [|discriminate].
    simpl in Hp.
    rewrite (set_member_frame _ _ _ l _ _ Hp).
    + now apply (set_member_frame _ _ _ l _ _ E1).
    + now rewrite (set_member_key _ _ _ o "headers" _ _ E1) by discriminate.
  - destruct (negb (isBrowser this)); injection Hp as <-; [|reflexivity].
    now rewrite heap_obj_set, decide_False.
Qed.


Lemma jsonp_url_frame p o method l (h : heap) :
  l ∈ dom h → l ≠ p →
  heap_obj (snd (jsonp_url stringify p o method h)) l = heap_obj h l.
Proof.
  intros Hl Hp. unfold jsonp_url.
  set (lit := [("jsonp", VStr "callback"); ("method", VStr method)]).
  pose proof (alloc_fresh lit h) as Hf.
  pose proof (λ l, alloc_frame lit l h) as Hfr.
  destruct (alloc lit h) as [q h0]; cbn -[_extend] in *.
  rewrite extend_frame by exact Hp. apply Hfr.
  intros Heq. rewrite Heq in Hl. contradiction.
Qed.


(** [options] starts as a copy of [this.httpOptions], key by key. *)
Lemma prepare_copy this path params fields method h p o h3 k :
  live_call this params h → params ≠ Some (httpOptions this) →
  prepare this path params fields method h = (p, o, h3) →
  k ≠ "method" → k ≠ "path" →
  heap_get o k h3 = heap_get (httpOptions this) k h.
Proof.
  intros [Hopt Hpar] Halias. unfold prepare.
  destruct (merge_params this params h) as [p1 h1] eqn:Hm.
  destruct (build_options this path method h1) as [o1 h2] eqn:Hb.
  intros [= -> -> <-] Hkm Hkp.
  apply merge_params_spec in Hm as (Hp1 & Hsub1 & Hwho & Hfr1 & _);
    [|exact Hpar].
  assert (Hop : httpOptions this ≠ p).
  { destruct Hwho as [->|Hfresh]; [congruence|].
    intros Heq. apply Hfresh. now rewrite <- Heq. }
  pose proof (build_options_spec this path method h1 o h2 (Hsub1 _ Hopt) Hb)
    as (Hof & _ & _ & _ & _).
  assert (Hpo : o ≠ p) by (intros Heq; apply Hof; now rewrite Heq).
  unfold heap_get at 1. rewrite set_fields_frame by exact Hpo.
  change (obj_get k (heap_obj h2 o)) with (heap_get o k h2).
  assert (Hsrc : heap_get (httpOptions this) k h1 = heap_get (httpOptions this) k h).
  { unfold heap_get. now rewrite Hfr1. }
  rewrite <- Hsrc. clear Hsrc Hfr1 Hwho Hpar Hp1 Hpo.
  unfold build_options in Hb.
  pose proof (alloc_fresh [] h1) as Hfresh.
  pose proof (alloc_new [] h1) as Hnew.
  pose proof (λ l, alloc_frame [] l h1) as Hframe.
  destruct (alloc [] h1) as [q h0]; cbn -[_extend] in *.
  assert (Hne : httpOptions this ≠ q).
  { intros Heq. apply Hfresh. rewrite <- Heq. now apply Hsub1. }
  assert (Hcopy : heap_get q k (heap_set q "method" (VStr method)
                    (_extend q (VRef (httpOptions this)) h0))
                  = heap_get (httpOptions this) k h1).
  { rewrite heap_get_set_key by exact Hkm. rewrite extend_get.
    unfold heap_get. rewrite Hnew, (Hframe _ Hne).
    destruct (has_key k (heap_obj h1 (httpOptions this))) eqn:Hk; [reflexivity|].
    now rewrite (obj_get_no_key _ _ Hk). }
  destruct (indexOf "/" path =? 0)%Z; injection Hb as <- <-;
    now rewrite heap_get_set_key by exact Hkp.
Qed.

(** The JSONP step: two more parameters on [params], then the URL. *)
Lemma jsonp_url_spec p o method (h : heap) :
  let h' := snd (jsonp_url stringify p o method h) in
  heap_get p "jsonp" h' = VStr "callback" ∧
  heap_get p "method" h' = VStr method ∧
  fst (jsonp_url stringify p o method h)
  = to_string (heap_get o "protocol" h') +:+ "//" +:+
    to_string (heap_get o "host" h') +:+ ":" +:+
    to_string (heap_get o "port" h') +:+
    to_string (heap_get o "path" h') +:+ "?" +:+ stringify (heap_obj h' p).
Proof.
  unfold jsonp_url.
  set (lit := [("jsonp", VStr "callback"); ("method", VStr method)]).
  pose proof (alloc_new lit h) as Hnew.
  destruct (alloc lit h) as [q h0]; cbn -[_extend] in *.
  split; [|split; [|reflexivity]].
  - rewrite extend_get, Hnew. unfold heap_get. now rewrite Hnew.
  - rewrite extend_get, Hnew. unfold heap_get. now rewrite Hnew.
Qed.

End Frames.

Lemma requestHasData_method method :
  requestHasData (VStr method) = true ↔ method ≠ Methods.GET ∧ method ≠ Methods.PUT.
Proof.
  unfold requestHasData; simpl.
  destruct (String.eqb_spec method Methods.GET), (String.eqb_spec method Methods.PUT);
    simpl; split; try tauto; try discriminate; intros [? ?]; contradiction.
Qed.

Section RequestExtras.

Variable stringify : obj -> string.



(** X3: in the server context the object the caller passed is, after the
    call, the very object that was serialized: it has taken the instance's
    defaults and the ["fields"] entry. *)
Theorem request_updates_params_in_place this path p fields method h r :
  isBrowser this = false →
  live_call this (Some p) h →
  p ≠ httpOptions this →
  heap_get (httpOptions this) "headers" h ≠ VRef p →
  request stringify this path (Some p) fields method h = Returned r →
  out_params r = p ∧
  out_paramsQS r = stringify (heap_obj (out_heap r) p) ∧
  ∀ k, heap_get p k (out_heap r) = serialized_param this (Some p) fields h k.
Proof.
  intros Hbr Hlive Halias Hnh
    (p' & o & h3 & h4 & Hprep & Hpl & Hp & Ho & Hqs & Hb & Hs)%request_returned.
  assert (Hal : Some p ≠ Some (httpOptions this)) by congruence.
  assert (Hpp : p' = p).
  { unfold prepare, merge_params in Hprep.
    destruct (build_options _ _ _ _) in Hprep. now injection Hprep as <- _ _. }
  revert Hp. subst p'. intros Hp.
  apply prepare_spec in Hprep as (Hpo & _ & _ & Hget & _ & Hj); [|exact Hlive].
  destruct (Hj Hal) as (_ & _ & Hhd).
  destruct (Hs Hbr) as [Hheap _].
  assert (H4 : heap_obj h4 p = heap_obj h3 p).
  { eapply place_params_frame; [exact Hpl | exact Hpo | now rewrite Hhd]. }
  rewrite Hheap, H4. split; [exact Hp|]. split; [exact Hqs|].
  intros k. rewrite <- Hget. unfold heap_get. now rewrite H4.
Qed.

(** X4: in the server context the body is written exactly when there is
    something to serialize and the method is neither GET nor PUT, whatever
    else the method is. *)
Theorem request_body_rule this path params fields method h r :
  isBrowser this = false →
  live_call this params h →
  request stringify this path params fields method h = Returned r →
  (out_paramsQS r ≠ EmptyString → method ≠ Methods.GET → method ≠ Methods.PUT →
   out_issued r = HttpRequest (out_options r) (Some (out_paramsQS r))) ∧
  (out_paramsQS r = EmptyString ∨ method = Methods.GET ∨ method = Methods.PUT →
   out_issued r = HttpRequest (out_options r) None).
Proof.
  intros Hbr Hlive
    (p & o & h3 & h4 & Hprep & Hpl & Hp & Ho & Hqs & Hb & Hs)%request_returned.
  apply prepare_spec in Hprep as (_ & _ & _ & _ & Hm & _); [|exact Hlive].
  assert (Hm4 : heap_get o "method" h4 = VStr method).
  { rewrite (place_params_key _ _ _ _ _ _ _ Hpl) by discriminate. exact Hm. }
  destruct (Hs Hbr) as [_ ->]. rewrite Hm4, Ho, Hqs. split.
  - intros Hne%truthy_str Hg Hput. rewrite Hne.
    now rewrite (proj2 (requestHasData_method method) (conj Hg Hput)).
  - intros [Hq | Hmeth].
    + rewrite Hq. reflexivity.
    + assert (Hd : requestHasData (VStr method) = false)
        by (destruct Hmeth as [-> | ->]; reflexivity).
      now rewrite Hd, andb_false_r.
Qed.

Lemma place_params_none this o qs (h : heap) :
  place_params this o qs h = None ↔
  qs ≠ EmptyString ∧ requestHasData (heap_get o "method" h) = true ∧
  (heap_get o "headers" h = VUndefined ∨ heap_get o "headers" h = VNull).
Proof.
  unfold place_params.
  destruct (truthy (VStr qs)) eqn:Ht.
  - apply truthy_str in Ht. destruct (requestHasData _).
    + destruct (heap_get o "headers" h) as [| | b | n | s | l] eqn:Hh; simpl.
      * tauto.
      * tauto.
      * rewrite Hh; simpl. split; [discriminate|].
        intros (_ & _ & [?|?]); discriminate.
      * rewrite Hh; simpl. split; [discriminate|].
        intros (_ & _ & [?|?]); discriminate.
      * rewrite Hh; simpl. split; [discriminate|].
        intros (_ & _ & [?|?]); discriminate.
      * rewrite heap_get_set_key, Hh by discriminate. simpl.
        split; [discriminate|]. intros (_ & _ & [?|?]); discriminate.
    + destruct (negb (isBrowser this));
        (split; [discriminate | intros (_ & ? & _); discriminate]).
  - split; [discriminate|]. intros (Hq%truthy_str & _). congruence.
Qed.

(** X5: the call throws, at the first header assignment, exactly when there
    is something to serialize, the method is neither GET nor PUT and
    [this.httpOptions.headers] is [undefined] or [null]. *)
Theorem request_throws_iff this path params fields method h p o h3 :
  live_call this params h →
  params ≠ Some (httpOptions this) →
  prepare this path params fields method h = (p, o, h3) →
  request stringify this path params fields method h = Threw h3 ↔
  stringify (heap_obj h3 p) ≠ EmptyString ∧
  method ≠ Methods.GET ∧ method ≠ Methods.PUT ∧
  (heap_get (httpOptions this) "headers" h = VUndefined ∨
   heap_get (httpOptions this) "headers" h = VNull).
Proof.
  intros Hlive Halias Hprep.
  assert (Hreq : request stringify this path params fields method h = Threw h3
                 ↔ place_params this o (stringify (heap_obj h3 p)) h3 = None).
  { unfold request. rewrite Hprep.
    destruct (place_params this o _ h3); [|tauto].
    destruct (isBrowser this); [destruct (jsonp_url _ _ _ _ _)|];
      split; discriminate. }
  rewrite Hreq, place_params_none.
  apply prepare_spec in Hprep as (_ & _ & _ & _ & Hm & Hj); [|exact Hlive].
  destruct (Hj Halias) as (_ & _ & Hhd).
  rewrite Hm, Hhd, requestHasData_method. tauto.
Qed.

(** X6: in the browser [params] gets [jsonp = "callback"] and the method,
    and the script's URL is protocol, [//], host, [:], port, the joined path,
    [?] and the serialized [params] as they then are. *)
Theorem request_jsonp_url this path params fields method h r :
  isBrowser this = true →
  live_call this params h →
  params ≠ Some (httpOptions this) →
  request stringify this path params fields method h = Returned r →
  heap_get (out_params r) "jsonp" (out_heap r) = VStr "callback" ∧
  heap_get (out_params r) "method" (out_heap r) = VStr method ∧
  ∃ joined, is_joined_path this path h joined ∧
    out_issued r
    = LoadScript
        (to_string (heap_get (httpOptions this) "protocol" h) +:+ "//" +:+
         to_string (heap_get (httpOptions this) "host" h) +:+ ":" +:+
         to_string (heap_get (httpOptions this) "port" h) +:+
         joined +:+ "?" +:+ stringify (heap_obj (out_heap r) (out_params r))).
Proof.
  intros Hbr Hlive Halias
    (p & o & h3 & h4 & Hprep & Hpl & Hp & Ho & Hqs & Hb & _)%request_returned.
  destruct (Hb Hbr) as [Hheap Hiss].
  pose proof (jsonp_url_spec stringify p o method h4) as (Hj1 & Hj2 & Hurl).
  rewrite <- Hheap in Hj1, Hj2, Hurl. rewrite Hp.
  split; [exact Hj1|]. split; [exact Hj2|].
  pose proof (prepare_copy _ _ _ _ _ _ _ _ _ "protocol" Hlive Halias Hprep)
    as Hproto.
  pose proof (prepare_copy _ _ _ _ _ _ _ _ _ "host" Hlive Halias Hprep)
    as Hhost.
  pose proof (prepare_copy _ _ _ _ _ _ _ _ _ "port" Hlive Halias Hprep)
    as Hport.
  apply prepare_spec in Hprep as (_ & _ & Ho3 & _ & _ & Hj); [|exact Hlive].
  destruct (joined_path_exists _ _ _ _ _ (Hj Halias)) as (joined & Hpath & Hjoined).
  assert (Ho4 : o ∈ dom h4) by (eapply place_params_dom; eassumption).
  assert (Hback : ∀ k, k ≠ "method" → k ≠ "jsonp" →
            heap_get o k (out_heap r) = heap_get o k h4).
  { intros k Hk1 Hk2. rewrite Hheap. now apply jsonp_url_key. }
  exists joined. split; [exact Hjoined|].
  rewrite Hiss, Hurl, !Hback by discriminate.
  rewrite !(place_params_key _ _ _ _ _ _ _ Hpl) by discriminate.
  rewrite (place_params_path _ _ _ _ _ Hpl), Hbr, andb_false_r.
  now rewrite Hproto, Hhost, Hport, Hpath by discriminate.
Qed.

End RequestExtras.

Section Copy.

Variable stringify : obj -> string.

(** X7: [options] is a new object that holds the method of the call and,
    key by key, what [this.httpOptions] holds (the same [headers] object
    among them). *)
Theorem request_options_copy this path params fields method h r :
  live_call this params h →
  params ≠ Some (httpOptions this) →
  request stringify this path params fields method h = Returned r →
  (out_options r ∉ dom h) ∧
  heap_get (out_options r) "method" (out_heap r) = VStr method ∧
  ∀ k, k ≠ "method" → k ≠ "path" →
       k ≠ "Content-Type" → k ≠ "Content-Length" →
       heap_get (out_options r) k (out_heap r)
       = heap_get (httpOptions this) k h.
Proof.
  intros Hlive Halias
    (p & o & h3 & h4 & Hprep & Hpl & Hp & Ho & Hqs & Hb & Hs)%request_returned.
  pose proof (λ k, prepare_copy _ _ _ _ _ _ _ _ _ k Hlive Halias Hprep) as Hcopy.
  assert (Hfresh : o ∉ dom h).
  { unfold prepare in Hprep.
    destruct (merge_params this params h) as [p1 h1] eqn:Hm.
    destruct (build_options this path method h1) as [o1 h2] eqn:Hbo.
    injection Hprep as -> -> _.
    pose proof Hlive as [Hopt Hpar].
    apply merge_params_spec in Hm as (_ & Hsub & _); [|exact Hpar].
    apply build_options_spec in Hbo as (Hof & _); [|now apply Hsub].
    intros Hin. apply Hof. now apply Hsub. }
  apply prepare_spec in Hprep as (Hpo & _ & Ho3 & _ & Hm & _); [|exact Hlive].
  assert (Ho4 : o ∈ dom h4) by (eapply place_params_dom; eassumption).
  assert (Hfinal : heap_obj (out_heap r) o = heap_obj h4 o).
  { destruct (isBrowser this).
    - destruct (Hb eq_refl) as [-> _]. apply jsonp_url_frame; [exact Ho4|].
      congruence.
    - now destruct (Hs eq_refl) as [-> _]. }
  rewrite Ho. split; [exact Hfresh|]. split.
  - unfold heap_get. rewrite Hfinal.
    change (heap_get o "method" h4 = VStr method).
    rewrite (place_params_key _ _ _ _ _ _ _ Hpl) by discriminate. exact Hm.
  - intros k Hk1 Hk2 Hk3 Hk4. unfold heap_get at 1. rewrite Hfinal.
    change (heap_get o k h4 = heap_get (httpOptions this) k h).
    rewrite (place_params_key _ _ _ _ _ _ _ Hpl) by assumption.
    now apply Hcopy.
Qed.

End Copy.

Lemma append_empty_r s : s +:+ EmptyString = s.
Proof.
  induction s as [|c s IH]; [reflexivity|].
  change (String c (s +:+ EmptyString) = String c s). now rewrite IH.
Qed.

Lemma append_assoc s t u : (s +:+ t) +:+ u = s +:+ t +:+ u.
Proof.
  induction s as [|c s IH]; [reflexivity|].
  change (String c ((s +:+ t) +:+ u) = String c (s +:+ t +:+ u)). now rewrite IH.
Qed.

Lemma fold_append chunks text :
  fold_left String.append chunks text = text +:+ String.concat EmptyString chunks.
Proof.
  revert text. induction chunks as [|c chunks IH]; intros text.
  - simpl. now rewrite append_empty_r.
  - change (fold_left String.append chunks (text +:+ c)
            = text +:+ String.concat EmptyString (c :: chunks)).
    rewrite IH, append_assoc. destruct chunks; [|reflexivity].
    simpl. now rewrite append_empty_r.
Qed.

(** [body] is the chunks put end to end. *)
Lemma accumulated_concat chunks :
  accumulated chunks = String.concat EmptyString chunks.
Proof. unfold accumulated. now rewrite fold_append. Qed.

Section PromiseExtras.

Variable stringify : obj -> string.
Variable JSON_parse : string -> option jsval.

Lemma server_run_response chunks post :
  fold_left (server_step JSON_parse)
    (EvResponse :: map EvData chunks ++ EvEnd :: post) initial
  = fold_left (server_step JSON_parse) post
      {| settled := on_end JSON_parse (accumulated chunks) Pending;
         body := Some (accumulated chunks) |}.
Proof. simpl. now rewrite fold_left_app, server_chunks. Qed.

(** X8: what the promise becomes depends on the chunks of the response only
    through their concatenation. *)
Theorem chunking_does_not_matter
    this path params fields method h r chunks1 chunks2 post :
  isBrowser this = false →
  request stringify this path params fields method h = Returned r →
  String.concat EmptyString chunks1 = String.concat EmptyString chunks2 →
  settle JSON_parse r (EvResponse :: map EvData chunks1 ++ EvEnd :: post)
  = settle JSON_parse r (EvResponse :: map EvData chunks2 ++ EvEnd :: post).
Proof.
  intros Hb Hr Hc. rewrite !(settle_server _ _ _ _ _ _ _ _ _ _ Hb Hr).
  rewrite !server_run_response, !accumulated_concat, Hc. reflexivity.
Qed.

(** X9: a body that parses to [null] (or a callback argument that is [null]
    or [undefined]) makes the listener fail before it settles the promise,
    which stays pending; a later transport error still rejects it. *)
Theorem null_settles_nothing this path params fields method h r :
  request stringify this path params fields method h = Returned r →
  (isBrowser this = false →
   ∀ chunks, JSON_parse (accumulated chunks) = Some JNull →
     settle JSON_parse r (EvResponse :: map EvData chunks ++ [EvEnd]) = Pending ∧
     ∀ e post,
       settle JSON_parse r
         (EvResponse :: map EvData chunks ++ EvEnd :: EvError e :: post)
       = Rejected e) ∧
  (isBrowser this = true →
   settle JSON_parse r [EvCallback JNull] = Pending ∧
   settle JSON_parse r [EvCallback JUndefined] = Pending).
Proof.
  intros Hr. split.
  - intros Hb chunks Hparse.
    assert (Hend : on_end JSON_parse (accumulated chunks) Pending = Pending).
    { unfold on_end. now rewrite Hparse. }
    split.
    + rewrite (settle_server _ _ _ _ _ _ _ _ _ _ Hb Hr).
      rewrite server_run_response, Hend. reflexivity.
    + intros e post. rewrite (settle_server _ _ _ _ _ _ _ _ _ _ Hb Hr).
      rewrite server_run_response, Hend. simpl.
      now rewrite server_settled.
  - intros Hb. rewrite !(settle_browser _ _ _ _ _ _ _ _ _ _ Hb Hr).
    split; reflexivity.
Qed.

(** X10: a body that parses to a boolean, a number, a string or an array
    has neither [error] nor [data]: the promise resolves with [undefined]. *)
Theorem non_object_body_resolves_undefined
    this path params fields method h r chunks post v :
  isBrowser this = false →
  request stringify this path params fields method h = Returned r →
  JSON_parse (accumulated chunks) = Some v →
  match v with
  | JBool _ | JNum _ | JStr _ | JArr _ => True
  | _ => False
  end →
  settle JSON_parse r (EvResponse :: map EvData chunks ++ EvEnd :: post)
  = Resolved JUndefined.
Proof.
  intros Hb Hr Hparse Hv.
  eapply settle_response; [eassumption.. | | discriminate].
  unfold on_end. rewrite Hparse. destruct v; try contradiction; reflexivity.
Qed.

End PromiseExtras.

(** * The earlier [request] *)

Lemma ctor_set_fields_frame p fields l (h h' : heap) :
  Ctor.set_fields p fields h = Some h' → l ≠ p → heap_obj h' l = heap_obj h l.
Proof.
  intros Hs Hl. destruct fields as [|f|fs]; simpl in Hs.
  - now injection Hs as <-.
  - destruct (negb _); [discriminate | now injection Hs as <-].
  - destruct (negb _); injection Hs as <-; [|reflexivity].
    now rewrite heap_obj_set, decide_False.
Qed.

Lemma ctor_set_fields_params p fields (h h' : heap) :
  Ctor.set_fields p (Ctor.defaulted_fields fields) h = Some h' →
  heap_obj h' p = Ctor.with_fields fields (heap_obj h p).
Proof.
  unfold Ctor.with_fields.
  destruct (Ctor.defaulted_fields fields) as [|f|[|f fs]]; simpl.
  - now intros [= <-].
  - destruct (negb _); [discriminate | now intros [= <-]].
  - now intros [= <-].
  - intros [= <-]. now rewrite heap_obj_set, decide_True.
Qed.

Section CtorRequest.

Variable stringify : obj -> string.
Variable path_join : value -> string -> option string.

Lemma ctor_request_inv this path params fields method h p o h' :
  live_call this params h →
  Ctor.request stringify path_join this path params fields method h
  = Ctor.Returned p o h' →
  (params = Some p ∨ params = None ∧ p ∉ dom h) ∧ (o ∉ dom h) ∧ p ≠ o ∧
  (∀ l, l ≠ p → l ≠ o → heap_obj h' l = heap_obj h l) ∧
  heap_obj h' p = Ctor.with_fields fields (heap_obj h p) ∧
  heap_get o "method" h' = Ctor.defaulted_method this method h ∧
  (∀ k, k ≠ "method" → k ≠ "path" →
        heap_get o k h' = heap_get (httpOptions this) k h) ∧
  ∃ joined,
    path_join (heap_get (httpOptions this) "path" h) path = Some joined ∧
    heap_get o "path" h'
    = VStr (joined +:+ "?" +:+ stringify (heap_obj h' p)).
Proof.
  intros [Hopt Hpar]. unfold Ctor.request.
  set (start := match params with Some q => (q, h) | None => alloc [] h end).
  assert (Hstart : (params = Some start.1 ∨ params = None ∧ start.1 ∉ dom h) ∧
                   start.1 ∈ dom start.2 ∧ dom h ⊆ dom start.2 ∧
                   (∀ l, l ≠ start.1 → heap_obj start.2 l = heap_obj h l) ∧
                   heap_obj start.2 start.1 = heap_obj h start.1).
  { unfold start. destruct params as [q|].
    - simpl. split; [left; reflexivity|]. split; [apply Hpar; reflexivity|].
      repeat split; reflexivity.
    - pose proof (alloc_fresh [] h) as Hf. pose proof (alloc_dom [] h) as Hd.
      pose proof (alloc_new [] h) as Hn.
      pose proof (λ l, alloc_frame [] l h) as Hfr.
      destruct (alloc [] h) as [q h0]; simpl in *.
      split; [right; split; [reflexivity | exact Hf]|].
      split; [rewrite Hd; apply elem_of_union_l, elem_of_singleton; reflexivity|].
      split; [rewrite Hd; apply union_subseteq_r|]. split; [exact Hfr|].
      now rewrite Hn, (heap_obj_dangling _ _ Hf). }
  destruct start as [p0 ha]; simpl in Hstart.
  destruct Hstart as (Hwho & Hpa & Hsuba & Hfra & Hpobj).
  assert (Hsrc : heap_obj ha (httpOptions this) = heap_obj h (httpOptions this)).
  { destruct (decide (httpOptions this = p0)) as [-> | Hne];
      [exact Hpobj | now apply Hfra]. }
  pose proof (alloc_fresh [] ha) as Hfo.
  pose proof (alloc_new [] ha) as Hno.
  pose proof (λ l, alloc_frame [] l ha) as Hfro.
  destruct (alloc [] ha) as [o0 hb]; cbn -[_extend] in *.
  assert (Hoo : httpOptions this ≠ o0).
  { intros Heq. apply Hfo. rewrite <- Heq. now apply Hsuba. }
  assert (Hpo : p0 ≠ o0) by (intros Heq; apply Hfo; now rewrite <- Heq).
  set (m := Ctor.defaulted_method this method ha).
  assert (Hm : m = Ctor.defaulted_method this method h).
  { unfold m, Ctor.defaulted_method, heap_get. now rewrite Hsrc. }
  set (hc := heap_set o0 "method" m (_extend o0 (VRef (httpOptions this)) hb)).
  assert (Hc_src : ∀ k, heap_get (httpOptions this) k hc
                        = heap_get (httpOptions this) k h).
  { intros k. unfold hc, heap_get.
    rewrite heap_obj_set, decide_False by exact Hoo.
    rewrite extend_frame by exact Hoo. now rewrite Hfro, Hsrc. }
  assert (Hc_fr : ∀ l, l ≠ o0 → heap_obj hc l = heap_obj ha l).
  { intros l Hl. unfold hc. rewrite heap_obj_set, decide_False by exact Hl.
    rewrite extend_frame by exact Hl. now apply Hfro. }
  assert (Hc_copy : ∀ k, k ≠ "method" →
            heap_get o0 k hc = heap_get (httpOptions this) k h).
  { intros k Hk. unfold hc. rewrite heap_get_set_key by exact Hk.
    rewrite extend_get. unfold heap_get. rewrite Hno, (Hfro _ Hoo), Hsrc.
    destruct (has_key k (heap_obj h (httpOptions this))) eqn:Hkey; [reflexivity|].
    now rewrite (obj_get_no_key _ _ Hkey). }
  rewrite Hc_src.
  destruct (path_join (heap_get (httpOptions this) "path" h) path)
    as [joined|]; [|discriminate].
  set (hd := heap_set o0 "path" (VStr joined) hc).
  destruct (Ctor.set_fields p0 (Ctor.defaulted_fields fields) hd) as [he|] eqn:Hsf;
    [|discriminate].
  intros [= <- <- <-].
  assert (He_o : heap_obj he o0 = heap_obj hd o0).
  { apply (ctor_set_fields_frame _ _ _ _ _ Hsf). congruence. }
  assert (He_p : heap_obj he p0 = Ctor.with_fields fields (heap_obj h p0)).
  { rewrite (ctor_set_fields_params _ _ _ _ Hsf). f_equal. unfold hd.
    rewrite heap_obj_set, decide_False by exact Hpo.
    now rewrite Hc_fr by exact Hpo. }
  assert (Hfinal_p : heap_obj (heap_set o0 "path"
            (VStr (to_string (heap_get o0 "path" he) +:+ "?" +:+
                   stringify (heap_obj he p0))) he) p0 = heap_obj he p0).
  { now rewrite heap_obj_set, decide_False by exact Hpo. }
  split; [exact Hwho|]. split; [intros Hin; apply Hfo; now apply Hsuba|].
  split; [exact Hpo|]. split; [|split; [|split; [|split]]].
  - intros l Hlp Hlo. rewrite heap_obj_set, decide_False by exact Hlo.
    rewrite (ctor_set_fields_frame _ _ _ _ _ Hsf) by exact Hlp.
    unfold hd. rewrite heap_obj_set, decide_False by exact Hlo.
    rewrite Hc_fr by exact Hlo. now apply Hfra.
  - now rewrite Hfinal_p.
  - rewrite heap_get_set_key by discriminate. unfold heap_get. rewrite He_o.
    change (heap_get o0 "method" hd = Ctor.defaulted_method this method h).
    unfold hd. rewrite heap_get_set_key by discriminate.
    unfold hc. now rewrite heap_get_set_same.
  - intros k Hk1 Hk2. rewrite heap_get_set_key by exact Hk2.
    unfold heap_get at 1. rewrite He_o.
    change (heap_get o0 k hd = heap_get (httpOptions this) k h).
    unfold hd. rewrite heap_get_set_key by exact Hk2. now apply Hc_copy.
  - exists joined. split; [reflexivity|].
    rewrite heap_get_set_same, Hfinal_p. do 2 f_equal.
    unfold heap_get. rewrite He_o.
    change (to_string (heap_get o0 "path" hd) = joined).
    unfold hd. now rewrite heap_get_set_same.
Qed.

End CtorRequest.

Section CtorExtras.

Variable stringify : obj -> string.
Variable path_join : value -> string -> option string.

(** X11: the earlier [request] changes no earlier object but the caller's
    [params]; [this.httpOptions] and its [headers] stay as they were. *)
Theorem ctor_request_leaves_other_objects
    this path params fields method h p o h' l :
  live_call this params h →
  Ctor.request stringify path_join this path params fields method h
  = Ctor.Returned p o h' →
  l ∈ dom h → params ≠ Some l →
  heap_obj h' l = heap_obj h l.
Proof.
  intros Hlive Hr Hl Hnp.
  apply ctor_request_inv in Hr as (Hwho & Hof & _ & Hfr & _); [|exact Hlive].
  apply Hfr.
  - destruct Hwho as [-> | [_ Hfresh]]; [congruence|].
    intros Heq. apply Hfresh. now rewrite <- Heq.
  - intros Heq. apply Hof. now rewrite <- Heq.
Qed.

(** X12: with a non-empty array of fields the earlier [request] assigns the
    comma-joined names under a key that is this same joined string
    ([params[fields]]), and leaves ["fields"] as it was. *)
Theorem ctor_request_fields_key this path p f fs method h p' o h' :
  live_call this (Some p) h →
  Ctor.request stringify path_join this path (Some p) (FieldsArr (f :: fs))
    method h = Ctor.Returned p' o h' →
  p' = p ∧
  heap_obj h' p
  = obj_set (join (f :: fs)) (VStr (join (f :: fs))) (heap_obj h p) ∧
  (join (f :: fs) ≠ "fields" → heap_get p "fields" h' = heap_get p "fields" h).
Proof.
  intros Hlive Hr.
  apply ctor_request_inv in Hr as (Hwho & _ & _ & _ & Hp & _); [|exact Hlive].
  destruct Hwho as [[= <-] | [? _]]; [|discriminate].
  split; [reflexivity|]. split; [exact Hp|].
  intros Hne. unfold heap_get. rewrite Hp. unfold Ctor.with_fields; simpl.
  rewrite obj_get_set. apply not_eq_sym, String.eqb_neq in Hne. now rewrite Hne.
Qed.

(** X13: the earlier [request] throws on a non-empty bare string of fields
    (a string has no [join]). *)
Theorem ctor_request_string_fields_throws this path params f method h :
  f ≠ EmptyString →
  ∃ h', Ctor.request stringify path_join this path params (FieldsStr f) method h
        = Ctor.Threw h'.
Proof.
  intros Hf. unfold Ctor.request.
  destruct (match params with Some p => (p, h) | None => alloc [] h end) as [p ha].
  destruct (alloc [] ha) as [o hb].
  destruct (path_join _ path) as [joined|]; [|eauto].
  assert (Hd : Ctor.defaulted_fields (FieldsStr f) = FieldsStr f).
  { simpl. apply String.eqb_neq in Hf. now rewrite Hf. }
  rewrite Hd. simpl. destruct f; [contradiction|]. simpl. eauto.
Qed.

(** X14: the earlier [request] always ends the path with [?] and the
    serialized parameters, even when there are none, and serializes the
    caller's parameters without any default of the instance. *)
Theorem ctor_request_always_has_query
    this path params fields method h p o h' :
  live_call this params h →
  Ctor.request stringify path_join this path params fields method h
  = Ctor.Returned p o h' →
  ∃ joined,
    path_join (heap_get (httpOptions this) "path" h) path = Some joined ∧
    heap_get o "path" h' = VStr (joined +:+ "?" +:+ stringify (heap_obj h' p)) ∧
    ∀ k, heap_get p k h'
         = obj_get k (Ctor.with_fields fields
                        (match params with
                         | Some q => heap_obj h q
                         | None => []
                         end)).
Proof.
  intros Hlive Hr.
  apply ctor_request_inv in Hr as (Hwho & _ & _ & _ & Hp & _ & _ & joined & Hj & Hpath);
    [|exact Hlive].
  exists joined. split; [exact Hj|]. split; [exact Hpath|].
  intros k. unfold heap_get. rewrite Hp.
  destruct Hwho as [-> | [-> Hfresh]]; [reflexivity|].
  now rewrite (heap_obj_dangling _ _ Hfresh).
Qed.

(** X15: in the earlier [request] a missing or empty method falls back to
    [this.httpOptions.method], and [options.headers] is the [headers] of
    [this.httpOptions]. *)
Theorem ctor_request_method this path params fields method h p o h' :
  live_call this params h →
  Ctor.request stringify path_join this path params fields method h
  = Ctor.Returned p o h' →
  (∀ m, method = Some m → m ≠ EmptyString → heap_get o "method" h' = VStr m) ∧
  (method = None ∨ method = Some EmptyString →
   heap_get o "method" h' = heap_get (httpOptions this) "method" h) ∧
  heap_get o "headers" h' = heap_get (httpOptions this) "headers" h.
Proof.
  intros Hlive Hr.
  apply ctor_request_inv in Hr as (_ & _ & _ & _ & _ & Hm & Hcopy & _);
    [|exact Hlive].
  split; [|split].
  - intros m -> Hne. rewrite Hm. simpl.
    apply String.eqb_neq in Hne. now rewrite Hne.
  - intros [-> | ->]; now rewrite Hm.
  - apply Hcopy; discriminate.
Qed.

End CtorExtras.

Section CtorPromise.

Variable JSON_parse : string -> option jsval.

Lemma ctor_on_end_settled text p :
  p ≠ Pending → Ctor.on_end JSON_parse text p = p.
Proof.
  intros Hp. unfold Ctor.on_end.
  destruct (JSON_parse text) as [data|]; [|reflexivity].
  destruct (member data "error") as [e|]; [|reflexivity].
  destruct (jtruthy e); [now apply reject_settled|].
  destruct (member data "data"); [now apply resolve_settled | reflexivity].
Qed.

Lemma ctor_settled evs c :
  settled c ≠ Pending →
  settled (fold_left (Ctor.step JSON_parse) evs c) = settled c.
Proof.
  revert c. induction evs as [|ev evs IH]; intros c Hc; [reflexivity|].
  simpl. assert (Hstep : settled (Ctor.step JSON_parse c ev) = settled c).
  { destruct ev; simpl; try reflexivity.
    - destruct (body c); simpl; [now apply ctor_on_end_settled | reflexivity].
    - now apply reject_settled. }
  rewrite IH; [exact Hstep | now rewrite Hstep].
Qed.

Lemma ctor_chunks chunks p text :
  fold_left (Ctor.step JSON_parse) (map EvData chunks)
    {| settled := p; body := Some text |}
  = {| settled := p; body := Some (fold_left String.append chunks text) |}.
Proof.
  revert text. induction chunks as [|c chunks IH]; intros text; [reflexivity|].
  simpl. apply IH.
Qed.

Lemma ctor_run_response chunks post :
  fold_left (Ctor.step JSON_parse)
    (EvResponse :: map EvData chunks ++ EvEnd :: post) initial
  = fold_left (Ctor.step JSON_parse) post
      {| settled := Ctor.on_end JSON_parse (accumulated chunks) Pending;
         body := Some (accumulated chunks) |}.
Proof. simpl. now rewrite fold_left_app, ctor_chunks. Qed.

(** X16: in the earlier [request] a body that is no JSON settles nothing
    (the exception of [JSON.parse] ends the listener); a later transport error
    still rejects the promise. *)
Theorem ctor_invalid_json_settles_nothing chunks :
  JSON_parse (accumulated chunks) = None →
  Ctor.settle JSON_parse (EvResponse :: map EvData chunks ++ [EvEnd]) = Pending ∧
  ∀ e post,
    Ctor.settle JSON_parse
      (EvResponse :: map EvData chunks ++ EvEnd :: EvError e :: post)
    = Rejected e.
Proof.
  intros Hparse.
  assert (Hend : Ctor.on_end JSON_parse (accumulated chunks) Pending = Pending).
  { unfold Ctor.on_end. now rewrite Hparse. }
  unfold Ctor.settle. split.
  - now rewrite ctor_run_response, Hend.
  - intros e post. rewrite ctor_run_response, Hend. simpl.
    now rewrite ctor_settled.
Qed.

(** X17: in the earlier [request] an envelope with a truthy [error] rejects
    with the envelope, any other envelope resolves with its [data], whatever
    follows. *)
Theorem ctor_envelope_settles chunks post ms :
  JSON_parse (accumulated chunks) = Some (JObj ms) →
  Ctor.settle JSON_parse (EvResponse :: map EvData chunks ++ EvEnd :: post)
  = if jtruthy (members_get "error" ms)
    then Rejected (JObj ms)
    else Resolved (members_get "data" ms).
Proof.
  intros Hparse. unfold Ctor.settle. rewrite ctor_run_response.
  assert (Hend : Ctor.on_end JSON_parse (accumulated chunks) Pending
                 = if jtruthy (members_get "error" ms)
                   then Rejected (JObj ms)
                   else Resolved (members_get "data" ms)).
  { unfold Ctor.on_end. rewrite Hparse. simpl.
    now destruct (jtruthy (members_get "error" ms)). }
  rewrite ctor_settled; simpl; rewrite Hend;
    [reflexivity | destruct (jtruthy _); discriminate].
Qed.

End CtorPromise.

(** * [loadScript] *)

Lemma filter_absent (el : nat) (l : list nat) :
  el ∉ l → filter (λ child, child ≠ el) l = l.
Proof.
  induction l as [|x l IH]; intros Hel; [reflexivity|].
  apply not_elem_of_cons in Hel as [Hx Hl].
  rewrite filter_cons_True by congruence. now rewrite IH.
Qed.

Lemma dom_fire_deaf el rs d s :
  Dom.scripts d !! el = Some s → Dom.listening s = false →
  Dom.fire el rs d = d.
Proof. intros Hs Hl. unfold Dom.fire. now rewrite Hs, Hl. Qed.

Lemma dom_fire_all_deaf el evs d s :
  Dom.scripts d !! el = Some s → Dom.listening s = false →
  fold_left (λ d rs, Dom.fire el rs d) evs d = d.
Proof.
  intros Hs Hl. induction evs as [|rs evs IH]; [reflexivity|].
  simpl. now rewrite (dom_fire_deaf _ _ _ _ Hs Hl).
Qed.

Lemma dom_fire_listening el evs d s :
  Dom.scripts d !! el = Some s →
  Dom.listening s = true → Dom.done s = false →
  Dom.head (fold_left (λ d rs, Dom.fire el rs d) evs d)
  = if existsb Dom.ready evs
    then filter (λ child, child ≠ el) (Dom.head d)
    else Dom.head d.
Proof.
  intros Hs Hl Hd. induction evs as [|rs evs IH]; [reflexivity|].
  simpl. destruct (Dom.ready rs) eqn:Hr; simpl.
  - assert (Hfire : Dom.fire el rs d
              = {| Dom.head := filter (λ child, child ≠ el) (Dom.head d);
                   Dom.scripts := <[el := {| Dom.src := Dom.src s;
                                            Dom.async := Dom.async s;
                                            Dom.listening := false;
                                            Dom.done := true |}]> (Dom.scripts d) |}).
    { unfold Dom.fire. now rewrite Hs, Hl, Hd, Hr. }
    rewrite Hfire.
    rewrite (dom_fire_all_deaf el evs _
               {| Dom.src := Dom.src s; Dom.async := Dom.async s;
                  Dom.listening := false; Dom.done := true |});
      [reflexivity | simpl; apply lookup_insert_eq | reflexivity].
  - assert (Hfire : Dom.fire el rs d = d).
    { unfold Dom.fire. rewrite Hs, Hl, Hd, Hr. reflexivity. }
    rewrite Hfire. exact IH.
Qed.

(** X18: [loadScript] appends a new script element to [head]; the first
    [load] or [readystatechange] that finds no [readyState], or ["loaded"] or
    ["complete"], takes it out again, so that [head] is as before, and no
    later event changes that; until then [head] keeps the element. *)
Theorem loadScript_removes_itself_once url d evs :
  let el := fst (Dom.loadScript url d) in
  Dom.head (snd (Dom.loadScript url d)) = (Dom.head d ++ [el])%list ∧
  (el ∉ Dom.head d) ∧
  Dom.head (fold_left (λ d rs, Dom.fire el rs d) evs (snd (Dom.loadScript url d)))
  = if existsb Dom.ready evs then Dom.head d else (Dom.head d ++ [el])%list.
Proof.
  unfold Dom.loadScript; simpl.
  set (el := fresh (dom (Dom.scripts d) ∪ list_to_set (Dom.head d))).
  assert (Hfresh : el ∉ Dom.head d).
  { intros Hin. apply (is_fresh (dom (Dom.scripts d) ∪ list_to_set (Dom.head d))).
    apply elem_of_union_r, elem_of_list_to_set. exact Hin. }
  split; [reflexivity|]. split; [exact Hfresh|].
  rewrite (dom_fire_listening el evs _
             {| Dom.src := url; Dom.async := true;
                Dom.listening := true; Dom.done := false |});
    [| simpl; apply lookup_insert_eq | reflexivity..].
  simpl. destruct (existsb Dom.ready evs); [|reflexivity].
  rewrite filter_app, (filter_absent _ _ Hfresh).
  rewrite filter_cons_False by (intros Hx; now apply Hx).
  now rewrite filter_nil, app_nil_r.
Qed.

(** * The further properties on the sample instance *)

Lemma in_dom_decide l (h : heap) : bool_decide (l ∈ dom h) = true → l ∈ dom h.
Proof. apply bool_decide_eq_true. Qed.



Lemma request_updates_params_in_place_witness :
  live_call Sample.server (Some 3) Sample.store ∧
  ∃ r,
    request QueryString.stringify Sample.server "task" (Some 3)
      (FieldsStr "name") Methods.GET Sample.store = Returned r ∧
    heap_obj Sample.store 3 = [("a", VStr "1"); ("b", VStr "x")] ∧
    heap_obj (out_heap r) 3
    = [("a", VStr "2"); ("b", VStr "x"); ("sessionID", VStr "s");
       ("fields", VStr "name")] ∧
    out_params r = 3 ∧
    out_paramsQS r = QueryString.stringify (heap_obj (out_heap r) 3) ∧
    ∀ k, heap_get 3 k (out_heap r)
         = serialized_param Sample.server (Some 3) (FieldsStr "name")
             Sample.store k.
Proof.
  assert (Hlive : live_call Sample.server (Some 3) Sample.store)
    by (apply live_call_decide; vm_compute; reflexivity).
  split; [exact Hlive|].
  destruct (request QueryString.stringify Sample.server "task" (Some 3)
              (FieldsStr "name") Methods.GET Sample.store) as [r|h'] eqn:E.
  - exists r. split; [reflexivity|]. split; [vm_compute; reflexivity|]. split.
    + vm_compute in E. injection E as <-. vm_compute. reflexivity.
    + apply (request_updates_params_in_place QueryString.stringify Sample.server
               "task" 3 (FieldsStr "name") Methods.GET Sample.store r eq_refl
               Hlive); [discriminate | vm_compute; discriminate | exact E].
  - vm_compute in E. discriminate E.
Defined.

Lemma request_body_rule_witness :
  isBrowser Sample.server = false ∧
  live_call Sample.server (Some 3) Sample.store ∧
  ∃ r,
    request QueryString.stringify Sample.server "task" (Some 3) FieldsNone
      "PATCH" Sample.store = Returned r ∧
    out_issued r = HttpRequest (out_options r) (Some "a=2&b=x&sessionID=s").
Proof.
  assert (Hlive : live_call Sample.server (Some 3) Sample.store)
    by (apply live_call_decide; vm_compute; reflexivity).
  split; [reflexivity|]. split; [exact Hlive|].
  destruct (request QueryString.stringify Sample.server "task" (Some 3)
              FieldsNone "PATCH" Sample.store) as [r|h'] eqn:E.
  - exists r. split; [reflexivity|].
    destruct (request_body_rule QueryString.stringify Sample.server "task"
                (Some 3) FieldsNone "PATCH" Sample.store r eq_refl Hlive E)
      as [Hbody _].
    assert (Hqs : out_paramsQS r = "a=2&b=x&sessionID=s").
    { vm_compute in E. injection E as <-. reflexivity. }
    rewrite <- Hqs. apply Hbody; [rewrite Hqs|..]; discriminate.
  - vm_compute in E. discriminate E.
Defined.

Lemma request_throws_iff_witness :
  live_call Sample.server (Some 3) Fixture.bare_store ∧
  heap_get (httpOptions Sample.server) "headers" Fixture.bare_store = VUndefined ∧
  (∃ h', request QueryString.stringify Sample.server "task" (Some 3) FieldsNone
           Methods.POST Fixture.bare_store = Threw h') ∧
  (∃ r, request QueryString.stringify Sample.server "task" (Some 3) FieldsNone
          Methods.GET Fixture.bare_store = Returned r).
Proof.
  assert (Hlive : live_call Sample.server (Some 3) Fixture.bare_store)
    by (apply live_call_decide; vm_compute; reflexivity).
  split; [exact Hlive|]. split; [vm_compute; reflexivity|]. split.
  - destruct (prepare Sample.server "task" (Some 3) FieldsNone Methods.POST
                Fixture.bare_store) as [[p o] h3] eqn:Hprep.
    exists h3.
    apply (request_throws_iff QueryString.stringify Sample.server "task"
             (Some 3) FieldsNone Methods.POST Fixture.bare_store p o h3 Hlive);
      [discriminate | exact Hprep |].
    split; [|split; [discriminate | split; [discriminate | left; vm_compute; reflexivity]]].
    vm_compute in Hprep. injection Hprep as <- <- <-. vm_compute. discriminate.
  - eexists. vm_compute. reflexivity.
Defined.

Lemma request_jsonp_url_witness :
  isBrowser Sample.browser = true ∧
  live_call Sample.browser (Some 3) Sample.store ∧
  ∃ r,
    request QueryString.stringify Sample.browser "/task/search" (Some 3)
      FieldsNone Methods.GET Sample.store = Returned r ∧
    out_issued r
    = LoadScript "https://example.attask.com:443/attask/api/task/search?a=2&b=x&sessionID=s&method=GET&jsonp=callback" ∧
    heap_get (out_params r) "jsonp" (out_heap r) = VStr "callback" ∧
    heap_get (out_params r) "method" (out_heap r) = VStr Methods.GET.
Proof.
  assert (Hlive : live_call Sample.browser (Some 3) Sample.store)
    by (apply live_call_decide; vm_compute; reflexivity).
  split; [reflexivity|]. split; [exact Hlive|].
  destruct (request QueryString.stringify Sample.browser "/task/search" (Some 3)
              FieldsNone Methods.GET Sample.store) as [r|h'] eqn:E.
  - exists r. split; [reflexivity|].
    destruct (request_jsonp_url QueryString.stringify Sample.browser
                "/task/search" (Some 3) FieldsNone Methods.GET Sample.store r
                eq_refl Hlive) as (Hj & Hm & _); [discriminate | exact E |].
    split; [|split; [exact Hj | exact Hm]].
    vm_compute in E. injection E as <-. reflexivity.
  - vm_compute in E. discriminate E.
Defined.

Lemma request_options_copy_witness :
  live_call Sample.server None Sample.store ∧
  ∃ r,
    request QueryString.stringify Sample.server "task" None FieldsNone
      Methods.DELETE Sample.store = Returned r ∧
    heap_get (out_options r) "method" (out_heap r) = VStr Methods.DELETE ∧
    heap_get (out_options r) "host" (out_heap r) = VStr "example.attask.com" ∧
    heap_get (out_options r) "headers" (out_heap r) = VRef 1.
Proof.
  assert (Hlive : live_call Sample.server None Sample.store)
    by (apply live_call_decide; vm_compute; reflexivity).
  split; [exact Hlive|].
  destruct (request QueryString.stringify Sample.server "task" None FieldsNone
              Methods.DELETE Sample.store) as [r|h'] eqn:E.
  - exists r. split; [reflexivity|].
    destruct (request_options_copy QueryString.stringify Sample.server "task"
                None FieldsNone Methods.DELETE Sample.store r Hlive)
      as (_ & Hm & Hcopy); [discriminate | exact E |].
    split; [exact Hm|]. split.
    + rewrite Hcopy by discriminate. vm_compute. reflexivity.
    + rewrite Hcopy by discriminate. vm_compute. reflexivity.
  - vm_compute in E. discriminate E.
Defined.

Lemma chunking_does_not_matter_witness :
  ∃ r,
    request QueryString.stringify Sample.server "task/search" None FieldsNone
      Methods.GET Sample.store = Returned r ∧
    settle JSON.parse r (EvResponse :: map EvData ["{"; "}"] ++ EvEnd :: [])
    = settle JSON.parse r (EvResponse :: map EvData ["{}"] ++ EvEnd :: []).
Proof.
  destruct (request QueryString.stringify Sample.server "task/search" None
              FieldsNone Methods.GET Sample.store) as [r|h'] eqn:E.
  - exists r. split; [reflexivity|].
    exact (chunking_does_not_matter QueryString.stringify JSON.parse
             Sample.server "task/search" None FieldsNone Methods.GET
             Sample.store r ["{"; "}"] ["{}"] [] eq_refl E eq_refl).
  - vm_compute in E. discriminate E.
Defined.

Lemma null_settles_nothing_witness :
  ∃ r,
    request QueryString.stringify Sample.server "task/search" None FieldsNone
      Methods.GET Sample.store = Returned r ∧
    JSON.parse (accumulated [Fixture.body_null]) = Some JNull ∧
    settle JSON.parse r (EvResponse :: map EvData [Fixture.body_null] ++ [EvEnd])
    = Pending.
Proof.
  destruct (request QueryString.stringify Sample.server "task/search" None
              FieldsNone Methods.GET Sample.store) as [r|h'] eqn:E.
  - exists r. split; [reflexivity|].
    assert (Hparse : JSON.parse (accumulated [Fixture.body_null]) = Some JNull)
      by (vm_compute; reflexivity).
    split; [exact Hparse|].
    destruct (null_settles_nothing QueryString.stringify JSON.parse
                Sample.server "task/search" None FieldsNone Methods.GET
                Sample.store r E) as [Hserver _].
    exact (proj1 (Hserver eq_refl [Fixture.body_null] Hparse)).
  - vm_compute in E. discriminate E.
Defined.

Lemma non_object_body_resolves_undefined_witness :
  ∃ r,
    request QueryString.stringify Sample.server "task/search" None FieldsNone
      Methods.GET Sample.store = Returned r ∧
    JSON.parse (accumulated [Fixture.body_number]) = Some (JNum 5) ∧
    settle JSON.parse r
      (EvResponse :: map EvData [Fixture.body_number] ++ EvEnd :: [])
    = Resolved JUndefined.
Proof.
  destruct (request QueryString.stringify Sample.server "task/search" None
              FieldsNone Methods.GET Sample.store) as [r|h'] eqn:E.
  - exists r. split; [reflexivity|].
    assert (Hparse : JSON.parse (accumulated [Fixture.body_number]) = Some (JNum 5))
      by (vm_compute; reflexivity).
    split; [exact Hparse|].
    exact (non_object_body_resolves_undefined QueryString.stringify JSON.parse
             Sample.server "task/search" None FieldsNone Methods.GET
             Sample.store r [Fixture.body_number] [] (JNum 5) eq_refl E Hparse I).
  - vm_compute in E. discriminate E.
Defined.

Lemma ctor_request_leaves_other_objects_witness :
  live_call Sample.server (Some 3) Sample.store ∧
  ∃ p o h',
    Ctor.request QueryString.stringify Fixture.path_join Sample.server
      "task/search" (Some 3) (FieldsArr ["name"; "ID"]) (Some Methods.GET)
      Sample.store = Ctor.Returned p o h' ∧
    heap_obj h' 0 = heap_obj Sample.store 0 ∧
    heap_obj h' 1 = heap_obj Sample.store 1.
Proof.
  assert (Hlive : live_call Sample.server (Some 3) Sample.store)
    by (apply live_call_decide; vm_compute; reflexivity).
  split; [exact Hlive|].
  destruct (Ctor.request QueryString.stringify Fixture.path_join Sample.server
              "task/search" (Some 3) (FieldsArr ["name"; "ID"])
              (Some Methods.GET) Sample.store) as [p o h'|h'] eqn:E.
  - exists p, o, h'. split; [reflexivity|]. split.
    + apply (ctor_request_leaves_other_objects QueryString.stringify
               Fixture.path_join Sample.server "task/search" (Some 3)
               (FieldsArr ["name"; "ID"]) (Some Methods.GET) Sample.store
               p o h' 0 Hlive E);
        [apply in_dom_decide; vm_compute; reflexivity | discriminate].
    + apply (ctor_request_leaves_other_objects QueryString.stringify
               Fixture.path_join Sample.server "task/search" (Some 3)
               (FieldsArr ["name"; "ID"]) (Some Methods.GET) Sample.store
               p o h' 1 Hlive E);
        [apply in_dom_decide; vm_compute; reflexivity | discriminate].
  - vm_compute in E. discriminate E.
Defined.

Lemma ctor_request_fields_key_witness :
  live_call Sample.server (Some 3) Sample.store ∧
  ∃ p o h',
    Ctor.request QueryString.stringify Fixture.path_join Sample.server
      "task/search" (Some 3) (FieldsArr ["name"; "ID"]) (Some Methods.GET)
      Sample.store = Ctor.Returned p o h' ∧
    heap_obj h' 3
    = [("a", VStr "1"); ("b", VStr "x"); ("name,ID", VStr "name,ID")].
Proof.
  assert (Hlive : live_call Sample.server (Some 3) Sample.store)
    by (apply live_call_decide; vm_compute; reflexivity).
  split; [exact Hlive|].
  destruct (Ctor.request QueryString.stringify Fixture.path_join Sample.server
              "task/search" (Some 3) (FieldsArr ["name"; "ID"])
              (Some Methods.GET) Sample.store) as [p o h'|h'] eqn:E.
  - exists p, o, h'. split; [reflexivity|].
    destruct (ctor_request_fields_key QueryString.stringify Fixture.path_join
                Sample.server "task/search" 3 "name" ["ID"] (Some Methods.GET)
                Sample.store p o h' Hlive E) as (_ & Hobj & _).
    rewrite Hobj. vm_compute. reflexivity.
  - vm_compute in E. discriminate E.
Defined.

Lemma ctor_request_string_fields_throws_witness :
  "name" ≠ EmptyString ∧
  ∃ h',
    Ctor.request QueryString.stringify Fixture.path_join Sample.server
      "task/search" (Some 3) (FieldsStr "name") (Some Methods.GET) Sample.store
    = Ctor.Threw h'.
Proof.
  split; [discriminate|].
  apply (ctor_request_string_fields_throws QueryString.stringify
           Fixture.path_join Sample.server "task/search" (Some 3) "name"
           (Some Methods.GET) Sample.store).
  discriminate.
Defined.

Lemma ctor_request_always_has_query_witness :
  live_call Sample.server None Sample.store ∧
  ∃ p o h',
    Ctor.request QueryString.stringify Fixture.path_join Sample.server
      "task/search" None FieldsNone None Sample.store = Ctor.Returned p o h' ∧
    heap_get o "path" h' = VStr "/attask/api/task/search?".
Proof.
  assert (Hlive : live_call Sample.server None Sample.store)
    by (apply live_call_decide; vm_compute; reflexivity).
  split; [exact Hlive|].
  destruct (Ctor.request QueryString.stringify Fixture.path_join Sample.server
              "task/search" None FieldsNone None Sample.store)
    as [p o h'|h'] eqn:E.
  - exists p, o, h'. split; [reflexivity|].
    destruct (ctor_request_always_has_query QueryString.stringify
                Fixture.path_join Sample.server "task/search" None FieldsNone
                None Sample.store p o h' Hlive E) as (joined & Hj & Hpath & _).
    rewrite Hpath. vm_compute in Hj. injection Hj as <-.
    vm_compute in E. injection E as <- <- <-. vm_compute. reflexivity.
  - vm_compute in E. discriminate E.
Defined.

Lemma ctor_request_method_witness :
  live_call Sample.server None Sample.store ∧
  ∃ p o h',
    Ctor.request QueryString.stringify Fixture.path_join Sample.server
      "task/search" None FieldsNone (Some Methods.PUT) Sample.store
    = Ctor.Returned p o h' ∧
    heap_get o "method" h' = VStr Methods.PUT.
Proof.
  assert (Hlive : live_call Sample.server None Sample.store)
    by (apply live_call_decide; vm_compute; reflexivity).
  split; [exact Hlive|].
  destruct (Ctor.request QueryString.stringify Fixture.path_join Sample.server
              "task/search" None FieldsNone (Some Methods.PUT) Sample.store)
    as [p o h'|h'] eqn:E.
  - exists p, o, h'. split; [reflexivity|].
    destruct (ctor_request_method QueryString.stringify Fixture.path_join
                Sample.server "task/search" None FieldsNone (Some Methods.PUT)
                Sample.store p o h' Hlive E) as (Hm & _).
    apply (Hm Methods.PUT eq_refl). discriminate.
  - vm_compute in E. discriminate E.
Defined.

Lemma ctor_invalid_json_settles_nothing_witness :
  JSON.parse (accumulated ["not-"; "json"]) = None ∧
  Ctor.settle JSON.parse (EvResponse :: map EvData ["not-"; "json"] ++ [EvEnd])
  = Pending.
Proof.
  assert (Hparse : JSON.parse (accumulated ["not-"; "json"]) = None)
    by (vm_compute; reflexivity).
  split; [exact Hparse|].
  exact (proj1 (ctor_invalid_json_settles_nothing JSON.parse ["not-"; "json"]
                  Hparse)).
Defined.

Lemma ctor_envelope_settles_witness :
  JSON.parse (accumulated [Sample.body_error])
  = Some (JObj [("error", JStr "not found")]) ∧
  Ctor.settle JSON.parse
    (EvResponse :: map EvData [Sample.body_error] ++ EvEnd :: [])
  = Rejected (JObj [("error", JStr "not found")]).
Proof.
  assert (Hparse : JSON.parse (accumulated [Sample.body_error])
                   = Some (JObj [("error", JStr "not found")]))
    by (vm_compute; reflexivity).
  split; [exact Hparse|].
  exact (ctor_envelope_settles JSON.parse [Sample.body_error] []
           [("error", JStr "not found")] Hparse).
Defined.
